(** * TeleForwarder: the forwarding orchestration engine

    A shallow embedding of the two implementations found in the
    repository:

    - [teleforwarder/] (domain/services.py, application/use_cases.py,
      infrastructure/telegram_gateway.py, infrastructure/time_utils.py):
      the continuous round-robin forwarder;
    - [src/utils/] (single_user_forwarder.py, fetch_messages.py,
      config_manager.py): the cron-driven forwarder with the persisted
      watermark [last_forwarded_id].

    Telethon (the messaging backend) is an external collaborator.  It is
    represented by the data it hands to the program: a feed of raw
    messages, newest first, and the outcome of every send. *)

From Stdlib Require Import ZArith Lia List Bool Ascii String Sorted Permutation.
From stdpp Require Import base gmap strings list fin_maps sorting.

Local Open Scope Z_scope.

(* ===================================================================== *)
(** ** Python datetimes, as far as the program uses them *)
(* ===================================================================== *)

Module PyTime.

(** A time zone ([ZoneInfo(name)], [timezone.utc]): the UTC offset, in
    seconds, in force at a given instant (POSIX seconds). *)
Definition zone := Z -> Z.

Definition utc : zone := fun _ => 0.

(** A [datetime]: its wall-clock fields, counted in seconds, and the UTC
    offset of its [tzinfo] ([None] for a naive datetime).  Sub-second
    precision is dropped: the program zeroes it or never looks at it. *)
Record datetime := mk_datetime { wall : Z; utcoffset : option Z }.

(** [datetime.now(tz)] read at instant [t]. *)
Definition now (tz : zone) (t : Z) : datetime :=
  {| wall := t + tz t; utcoffset := Some (tz t) |}.

(** [d.hour] *)
Definition hour (d : datetime) : Z := (wall d / 3600) mod 24.

(** [d.replace(hour=0, minute=0, second=0, microsecond=0)] *)
Definition replace_midnight (d : datetime) : datetime :=
  {| wall := wall d / 86400 * 86400; utcoffset := utcoffset d |}.

(** [d.replace(tzinfo=None)]: same wall clock, offset forgotten. *)
Definition replace_tzinfo_none (d : datetime) : datetime :=
  {| wall := wall d; utcoffset := None |}.

(** [d.replace(tzinfo=timezone.utc)] *)
Definition replace_tzinfo_utc (d : datetime) : datetime :=
  {| wall := wall d; utcoffset := Some 0 |}.

(** [d.astimezone(timezone.utc)] of an aware datetime. *)
Definition astimezone_utc (d : datetime) : datetime :=
  {| wall := wall d - default 0 (utcoffset d); utcoffset := Some 0 |}.

(** The instant an aware datetime denotes. *)
Definition timestamp (d : datetime) : Z := wall d - default 0 (utcoffset d).

(** [a < b] between two naive datetimes: wall clocks are compared. *)
Definition naive_lt (a b : datetime) : bool := wall a <? wall b.

(** [a < b] between two aware datetimes: instants are compared. *)
Definition aware_lt (a b : datetime) : bool := timestamp a <? timestamp b.

(** Telethon's [Message.date]: an aware datetime in UTC. *)
Definition utc_datetime (secs : Z) : datetime :=
  {| wall := secs; utcoffset := Some 0 |}.

End PyTime.

(* ===================================================================== *)
(** ** Python values stored in config.json *)
(* ===================================================================== *)

Module PyVal.

(** The JSON values the program and its admin commands store: integers,
    booleans, strings and lists of strings. *)
Inductive value :=
| VInt (z : Z)
| VBool (b : bool)
| VStr (s : string)
| VList (l : list string).

#[global] Instance value_eq_dec : EqDecision value.
Proof. solve_decision. Defined.

(** Truth value of [v] in an [if]. *)
Definition truthy (v : value) : bool :=
  match v with
  | VInt z => negb (z =? 0)
  | VBool b => b
  | VStr s => negb (String.eqb s "")
  | VList l => match l with [] => false | _ => true end
  end.

(** [v] as an operand of [<=] or [<] against an [int]: [bool] is a
    subclass of [int]; a [str] or a [list] raises TypeError ([None]). *)
Definition as_int (v : value) : option Z :=
  match v with
  | VInt z => Some z
  | VBool b => Some (if b then 1 else 0)
  | VStr _ | VList _ => None
  end.

Definition is_space (c : ascii) : bool :=
  let n := nat_of_ascii c in
  ((9 <=? n) && (n <=? 13) || (28 <=? n) && (n <=? 32))%nat.

Definition digit_of (c : ascii) : option Z :=
  let n := Z.of_nat (nat_of_ascii c) in
  if (48 <=? n) && (n <=? 57) then Some (n - 48) else None.

Fixpoint lstrip (l : list ascii) : list ascii :=
  match l with
  | c :: l' => if is_space c then lstrip l' else l
  | [] => []
  end.

(** Decimal digits, single underscores allowed between two digits. *)
Fixpoint digits (acc : Z) (after_digit : bool) (l : list ascii) : option Z :=
  match l with
  | [] => if after_digit then Some acc else None
  | c :: l' =>
      if Ascii.eqb c "_"%char then
        if after_digit then digits acc false l' else None
      else
        match digit_of c with
        | Some d => digits (10 * acc + d) true l'
        | None => None
        end
  end.

(** [int(s)] for an ASCII [str], base 10; [None] is ValueError. *)
Definition int_of_str (s : string) : option Z :=
  match rev (lstrip (rev (lstrip (list_ascii_of_string s)))) with
  | c :: l =>
      if Ascii.eqb c "-"%char then option_map Z.opp (digits 0 false l)
      else if Ascii.eqb c "+"%char then digits 0 false l
      else digits 0 false (c :: l)
  | [] => None
  end.

(** [int(v)] *)
Definition py_int (v : value) : option Z :=
  match v with
  | VInt z => Some z
  | VBool b => Some (if b then 1 else 0)
  | VStr s => int_of_str s
  | VList _ => None
  end.

(** [for x in v]: a list yields its elements, a [str] its characters,
    anything else raises TypeError ([None]). *)
Definition py_iter (v : value) : option (list string) :=
  match v with
  | VList l => Some l
  | VStr s => Some (map (fun c => String c EmptyString) (list_ascii_of_string s))
  | VInt _ | VBool _ => None
  end.

End PyVal.

(* ===================================================================== *)
(** ** Effects: the trace of gateway calls, and exceptions *)
(* ===================================================================== *)

Module Eff.
Import PyVal.

Inductive exn :=
| FloodWaitError (seconds : Z)
| OtherError.

Inductive event :=
| EvGetEntity (who : value) (found : bool)
| EvGetMessages (offset_id min_id : Z)
| EvForwarded (dest : string) (ids : list Z)
| EvRejected (dest : string) (ids : list Z)
| EvSleep (seconds : Z)
| EvLogError (about : value)
| EvSetLastId (msg_id : Z).

(** A computation: the events it performed and either the exception it
    raised or its value. *)
Definition M (A : Type) : Type := list event * (exn + A).

Definition ret {A} (a : A) : M A := ([], inr a).

Definition bind {A B} (m : M A) (k : A -> M B) : M B :=
  match m with
  | (tr, inl e) => (tr, inl e)
  | (tr, inr a) => let '(tr', r) := k a in (tr ++ tr', r)
  end.

Definition emit (e : event) : M unit := ([e], inr tt).

Definition raise {A} (e : exn) : M A := ([], inl e).

(** [try: body  except ... as e: handler e] *)
Definition try_except {A} (body : M A) (handler : exn -> M A) : M A :=
  match body with
  | (tr, inl e) => let '(tr', r) := handler e in (tr ++ tr', r)
  | (tr, inr a) => (tr, inr a)
  end.

(** [for x in xs: body x] *)
Fixpoint for_each {X} (xs : list X) (body : X -> M unit) : M unit :=
  match xs with
  | [] => ret tt
  | x :: xs' => bind (body x) (fun _ => for_each xs' body)
  end.

Definition trace_of {A} (m : M A) : list event := fst m.

(** [await asyncio.sleep(s)] *)
Definition sleep (s : Z) : M unit := emit (EvSleep s).

(** Outcome of one [client.forward_messages] call, decided by the backend. *)
Inductive send_result :=
| SendOk
| SendFloodWait (seconds : Z)
| SendFailed.

(** [await client.forward_messages(dest, ...)] given the backend's answer. *)
Definition forward_messages (r : send_result) (dest : string) (ids : list Z)
  : M unit :=
  match r with
  | SendOk => emit (EvForwarded dest ids)
  | SendFloodWait s =>
      bind (emit (EvRejected dest ids)) (fun _ => raise (FloodWaitError s))
  | SendFailed =>
      bind (emit (EvRejected dest ids)) (fun _ => raise OtherError)
  end.

(** The message ids a trace shows as delivered to [dest], in order. *)
Fixpoint delivered_to (dest : string) (tr : list event) : list Z :=
  match tr with
  | [] => []
  | EvForwarded d ids :: tr' =>
      if bool_decide (d = dest) then ids ++ delivered_to dest tr'
      else delivered_to dest tr'
  | _ :: tr' => delivered_to dest tr'
  end.

(** The number of send attempts (accepted or rejected) a trace makes to
    [dest]. *)
Fixpoint attempts_to (dest : string) (tr : list event) : nat :=
  match tr with
  | [] => 0%nat
  | EvForwarded d _ :: tr' | EvRejected d _ :: tr' =>
      if bool_decide (d = dest) then S (attempts_to dest tr')
      else attempts_to dest tr'
  | _ :: tr' => attempts_to dest tr'
  end.

End Eff.

(* ===================================================================== *)
(** ** The feed gateway's data *)
(* ===================================================================== *)

Module Feed.
Import PyTime.

(** A Telethon [Message]: only the attributes the program reads.
    [date] is the POSIX time of the aware UTC datetime [m.date];
    [message] is the empty string when there is no text. *)
Record RawMessage := mk_raw {
  id : Z;
  date : Z;
  message : string;
  media : option string
}.

Definition m_date (m : RawMessage) : datetime := utc_datetime (date m).

(** [client.get_messages(entity, limit=, offset_id=, min_id=)] on a feed
    listed newest first: the first [limit] messages whose id is above
    [min_id] and, when [offset_id] is not 0, below [offset_id]. *)
Definition get_messages (feed : list RawMessage) (limit : nat)
    (offset_id min_id : Z) : list RawMessage :=
  take limit
    (List.filter
       (fun m => ((offset_id =? 0) || (id m <? offset_id)) && (min_id <? id m))
       feed).

End Feed.

(* ===================================================================== *)
(** ** teleforwarder/domain *)
(* ===================================================================== *)

Module Domain.
Import PyTime Feed.

(** domain/model.py, [TextMessage]; [raw] is the optional Telethon object. *)
Record TextMessage := mk_text {
  message_id : Z;
  tm_date : datetime;
  content : string;
  raw : option RawMessage
}.

(** [l[i]] for a Python list: negative indices count from the end, an
    index out of range raises IndexError ([None]). *)
Definition py_getitem {A} (l : list A) (i : Z) : option A :=
  let n := Z.of_nat (length l) in
  if 0 <=? i then l !! Z.to_nat i
  else if - n <=? i then l !! Z.to_nat (n + i)
  else None.

(** The [for _ in range(length)] loop of [round_robin]: [n] rounds are
    left, [i] is the running index. *)
Fixpoint round_robin_loop {A} (messages : list A) (len : Z) (i : Z)
    (n : nat) : option (list (Z * A)) :=
  match n with
  | O => Some []
  | S n' =>
      match py_getitem messages i with
      | None => None
      | Some m =>
          option_map (cons (i, m))
            (round_robin_loop messages len ((i + 1) mod len) n')
      end
  end.

(** domain/services.py, [round_robin]: everything one generator yields
    until it is exhausted; [None] when [messages[i]] raises. *)
Definition round_robin {A} (messages : list A) (index : Z)
  : option (list (Z * A)) :=
  match messages with
  | [] => Some []
  | _ => round_robin_loop messages (Z.of_nat (length messages)) index
           (length messages)
  end.

(** The caller's cursor after [for idx, msg in round_robin(msgs, idx)]:
    the index of the last pair yielded, unchanged when nothing was. *)
Definition cursor_after {A} (index : Z) (yielded : list (Z * A)) : Z :=
  List.last (map fst yielded) index.

(** [sweeps] successive invocations of the generator, each started from
    the cursor the caller kept from the previous one: the indices
    visited, in order. *)
Fixpoint visits {A} (sweeps : nat) (messages : list A) (index : Z)
  : option (list Z) :=
  match sweeps with
  | O => Some []
  | S k =>
      match round_robin messages index with
      | None => None
      | Some ys =>
          option_map (app (map fst ys))
            (visits k messages (cursor_after index ys))
      end
  end.

End Domain.

(* ===================================================================== *)
(** ** teleforwarder/infrastructure *)
(* ===================================================================== *)

Module Gateway.
Import PyVal PyTime Eff Feed Domain.

(** time_utils.py, [start_of_today]. *)
Definition start_of_today (tz : zone) (clock : Z) : datetime :=
  replace_midnight (now tz clock).

(** The test both loops of [fetch_today_texts] apply to a message:
    [m.date.replace(tzinfo=None) < day_start.replace(tzinfo=None)]. *)
Definition before_day_start (day_start : datetime) (m : RawMessage) : bool :=
  naive_lt (replace_tzinfo_none (m_date m)) (replace_tzinfo_none day_start).

(** [m.message and m.media is None] *)
Definition is_plain_text (m : RawMessage) : bool :=
  negb (String.eqb (message m) "") &&
  match media m with None => true | Some _ => false end.

Definition to_text (m : RawMessage) : TextMessage :=
  {| message_id := id m; tm_date := m_date m; content := message m;
     raw := Some m |}.

(** The [for m in chunk] loop with its [break]: what one page appends. *)
Fixpoint scan_chunk (day_start : datetime) (chunk : list RawMessage)
  : list TextMessage :=
  match chunk with
  | [] => []
  | m :: rest =>
      if before_day_start day_start m then []
      else (if is_plain_text m then [to_text m] else [])
             ++ scan_chunk day_start rest
  end.

(** The [while True] paging loop; [None] when [fuel] pages were not
    enough to leave it. *)
Fixpoint fetch_loop (fuel : nat) (feed : list RawMessage)
    (day_start : datetime) (offset : Z) (msgs : list TextMessage)
  : option (list TextMessage) :=
  match fuel with
  | O => None
  | S fuel' =>
      let chunk := get_messages feed 100 offset 0 in
      match List.last (map Some chunk) None with
      | None => Some msgs
      | Some oldest =>
          let msgs' := msgs ++ scan_chunk day_start chunk in
          if before_day_start day_start oldest then Some msgs'
          else fetch_loop fuel' feed day_start (id oldest) msgs'
      end
  end.

(** telegram_gateway.py, [fetch_today_texts].  The loop is given one page
    more than the feed has messages, which always suffices
    ([fetch_today_texts_total]). *)
Definition fetch_today_texts (feed : list RawMessage) (tz : zone)
    (clock : Z) : option (list TextMessage) :=
  option_map (@rev TextMessage)
    (fetch_loop (S (length feed)) feed (start_of_today tz clock) 0 []).

(** telegram_gateway.py, [forward_text]; [send] is the backend's answer
    for a destination. *)
Definition forward_text (send : string -> RawMessage -> send_result)
    (targets : list string) (msg : TextMessage) (delay : Z) : M unit :=
  match raw msg with
  | None => ret tt
  | Some r =>
      for_each targets (fun tg =>
        try_except
          (bind (forward_messages (send tg r) tg [id r])
                (fun _ => sleep delay))
          (fun e =>
             match e with
             | FloodWaitError seconds => sleep seconds
             | OtherError => emit (EvLogError (VStr tg))
             end))
  end.

End Gateway.

(* ===================================================================== *)
(** ** teleforwarder/application/use_cases.py, [ForwardDailyTexts] *)
(* ===================================================================== *)

Module UseCases.
Import PyTime Eff Feed Domain Gateway.

(** config.py, [Settings]: the fields the use case reads; [timezone] is
    the zone its name denotes. *)
Record Settings := mk_settings {
  forward_to : string;
  target_groups : list string;
  timezone : zone;
  start_hour : Z;
  end_hour : Z;
  sleep_between_messages : Z
}.

(** The bounds pydantic enforces on the hours. *)
Definition settings_valid (s : Settings) : Prop :=
  0 <= start_hour s <= 23 /\ 1 <= end_hour s <= 24 /\
  1 <= sleep_between_messages s.

(** What one pass of the loop sees of the outside world: the clock when
    the window is checked and when the day start is computed, the source
    feed, the public groups of the account, the backend's answers. *)
Record Env := mk_env {
  e_clock_window : Z;
  e_clock_fetch : Z;
  e_feed : list RawMessage;
  e_groups : list string;
  e_send : string -> RawMessage -> send_result
}.

(** [self._messages], [self._idx] *)
Record State := mk_state {
  st_messages : list TextMessage;
  st_idx : Z
}.

Definition initial : State := {| st_messages := []; st_idx := 0 |}.

(** [_in_allowed_window] *)
Definition _in_allowed_window (s : Settings) (clock : Z) : bool :=
  let now_local := now (timezone s) clock in
  (start_hour s <=? hour now_local) && (hour now_local <? end_hour s).

(** [_load_targets] *)
Definition _load_targets (s : Settings) (e : Env) : list string :=
  if String.eqb (forward_to s) "all" then e_groups e else target_groups s.

(** [_refresh_messages] *)
Definition _refresh_messages (s : Settings) (e : Env) : option State :=
  match fetch_today_texts (e_feed e) (timezone s) (e_clock_fetch e) with
  | None => None
  | Some msgs => Some {| st_messages := msgs; st_idx := 0 |}
  end.

Inductive control :=
| Continue        (* back to [while True] *)
| Stopped         (* [return]: no groups configured *)
| Crashed         (* IndexError out of the generator *)
| Diverged.       (* the paging loop did not end *)

Record pass := mk_pass {
  p_control : control;
  p_state : State;
  p_trace : list event
}.

(** The body of the [for self._idx, msg in round_robin(...)] loop. *)
Definition sweep_body (s : Settings) (e : Env) (targets : list string)
    (y : Z * TextMessage) : M unit :=
  bind (forward_text (e_send e) targets (snd y) 1)
       (fun _ => sleep (sleep_between_messages s)).

(** One pass through the body of [while True] in [run_forever]. *)
Definition iteration (s : Settings) (e : Env) (st : State) : pass :=
  if negb (_in_allowed_window s (e_clock_window e)) then
    mk_pass Continue st [EvSleep (sleep_between_messages s)]
  else
    match _refresh_messages s e with
    | None => mk_pass Diverged st []
    | Some st1 =>
        match _load_targets s e with
        | [] => mk_pass Stopped st1 []
        | targets =>
            match st_messages st1 with
            | [] => mk_pass Continue st1 [EvSleep (sleep_between_messages s)]
            | _ =>
                match round_robin (st_messages st1) (st_idx st1) with
                | None => mk_pass Crashed st1 []
                | Some ys =>
                    mk_pass Continue
                      {| st_messages := st_messages st1;
                         st_idx := cursor_after (st_idx st1) ys |}
                      (trace_of (for_each ys (sweep_body s e targets)))
                end
            end
        end
    end.

(** [run_forever] over the passes for which an environment is given. *)
Fixpoint run_forever (s : Settings) (envs : list Env) (st : State)
  : list pass :=
  match envs with
  | [] => []
  | e :: envs' =>
      let p := iteration s e st in
      p :: match p_control p with
           | Continue => run_forever s envs' (p_state p)
           | _ => []
           end
  end.

End UseCases.

(* ===================================================================== *)
(** ** src/utils: the cron-driven forwarder and its configuration store *)
(* ===================================================================== *)

Module Legacy.
Import PyVal PyTime Eff Feed.

(** config_manager.py, [ConfigManager]: the in-memory dict [config] and
    the contents of config.json, [saved]. *)
Record ConfigManager := mk_cm {
  config : gmap string value;
  saved : gmap string value
}.

(** [cfg.get(key, default)] *)
Definition cfg_get (cfg : gmap string value) (key : string) (dflt : value)
  : value :=
  default dflt (cfg !! key).

(** [save_config] *)
Definition save_config (cm : ConfigManager) (cfg : gmap string value)
  : ConfigManager :=
  {| config := cfg; saved := cfg |}.

(** [update_config] *)
Definition update_config (cm : ConfigManager) (key : string) (v : value)
  : ConfigManager :=
  save_config cm (<[key := v]> (config cm)).

(** [get_last_forwarded_id]; [None] when [int] raises. *)
Definition get_last_forwarded_id (cm : ConfigManager) : option Z :=
  py_int (cfg_get (config cm) "last_forwarded_id" (VInt 0)).

(** [set_last_forwarded_id] *)
Definition set_last_forwarded_id (cm : ConfigManager) (msg_id : Z)
  : ConfigManager :=
  update_config cm "last_forwarded_id" (VInt msg_id).

(** The watermark as config.json holds it. *)
Definition persisted_last_id (cm : ConfigManager) : option Z :=
  py_int (cfg_get (saved cm) "last_forwarded_id" (VInt 0)).

(** What one cron-triggered cycle sees of the outside world: the clock at
    the window test and in the full-day fetch, which entities can be
    found, the source feed, and the backend's answer to a send, which
    depends on the destination and on what is sent. *)
Record World := mk_world {
  w_clock : Z;
  w_clock_fetch : Z;
  w_entity : value -> bool;
  w_feed : list RawMessage;
  w_send : string -> list RawMessage -> send_result
}.

(** [await client.get_entity(who)] *)
Definition get_entity (w : World) (who : value) : M unit :=
  if w_entity w who then emit (EvGetEntity who true)
  else bind (emit (EvGetEntity who false)) (fun _ => raise OtherError).

(** The time-window test at the head of [forward_messages_async]:
    [Some true] lets the cycle go on, [Some false] is the early return,
    [None] a TypeError from comparing a non-number. *)
Definition window_open (cfg : gmap string value) (now : datetime)
  : option bool :=
  if truthy (cfg_get cfg "time_interval_enabled" (VBool true)) then
    let start_hour := cfg_get cfg "start_hour" (VInt 8) in
    let end_hour := cfg_get cfg "end_hour" (VInt 22) in
    match as_int start_hour with
    | None => None
    | Some s =>
        if s <=? hour now then
          match as_int end_hour with
          | None => None
          | Some e => Some (hour now <? e)
          end
        else Some false
    end
  else Some true.

(** fetch_messages.py: the date of a message as the loop compares it. *)
Definition msg_date_utc (m : RawMessage) : datetime :=
  match utcoffset (m_date m) with
  | Some _ => astimezone_utc (m_date m)
  | None => replace_tzinfo_utc (m_date m)
  end.

(** The [for msg in chunk] loop with its [break]. *)
Fixpoint scan_chunk (start : datetime) (chunk : list RawMessage)
  : list RawMessage :=
  match chunk with
  | [] => []
  | m :: rest =>
      if negb (aware_lt (msg_date_utc m) start) then m :: scan_chunk start rest
      else []
  end.

(** The [while True] paging loop of [fetch_all_today_messages]; [None]
    when [fuel] pages were not enough to leave it. *)
Fixpoint fetch_all_loop (fuel : nat) (feed : list RawMessage)
    (start : datetime) (offset_id : Z) (tr : list event)
    (all_messages : list RawMessage)
  : option (list event * list RawMessage) :=
  match fuel with
  | O => None
  | S fuel' =>
      let chunk := get_messages feed 100 offset_id 0 in
      let tr' := tr ++ [EvGetMessages offset_id 0] in
      match List.last (map Some chunk) None with
      | None => Some (tr', all_messages)
      | Some oldest =>
          let all' := all_messages ++ scan_chunk start chunk in
          if aware_lt (msg_date_utc oldest) start then Some (tr', all')
          else fetch_all_loop fuel' feed start (id oldest) tr' all'
      end
  end.

(** fetch_messages.py, [fetch_all_today_messages]. *)
Definition fetch_all_today_messages (feed : list RawMessage) (clock : Z)
  : option (list event * list RawMessage) :=
  let start_of_today_aware := replace_midnight (now utc clock) in
  match fetch_all_loop (S (length feed)) feed start_of_today_aware 0 [] [] with
  | Some (tr, all_messages) => Some (tr, rev all_messages)
  | None => None
  end.

(** [list.sort(key=...)]: a stable sort, ascending in the key. *)
Fixpoint insert_by {A} (key : A -> Z) (x : A) (l : list A) : list A :=
  match l with
  | [] => [x]
  | y :: l' => if key x <=? key y then x :: l else y :: insert_by key x l'
  end.

Fixpoint sort_by {A} (key : A -> Z) (l : list A) : list A :=
  match l with
  | [] => []
  | x :: l' => insert_by key x (sort_by key l')
  end.

(** [max(m.id for m in msgs)]; [None] (ValueError) on an empty list. *)
Definition max_id (msgs : list RawMessage) : option Z :=
  match msgs with
  | [] => None
  | m :: rest => Some (fold_left Z.max (map id rest) (id m))
  end.

(** The incremental fetch of the [else] branch (lines 75-78). *)
Definition fetch_new (w : World) (last_id : Z) : list RawMessage :=
  sort_by (fun m => timestamp (m_date m))
          (get_messages (w_feed w) 100 0 last_id).

(** The body of the [try] inside [for sg in supergroups]. *)
Definition deliver_body (w : World) (forward_order : value)
    (msgs : list RawMessage) (sg : string) : M unit :=
  bind (get_entity w (VStr sg)) (fun _ =>
    if bool_decide (forward_order = VStr "batch") then
      forward_messages (w_send w sg msgs) sg (map id msgs)
    else
      for_each msgs (fun msg =>
        bind (forward_messages (w_send w sg [msg]) sg [id msg])
             (fun _ => sleep 1))).

(** The delivery step (lines 86-98). *)
Definition deliver (w : World) (forward_order : value)
    (msgs : list RawMessage) (supergroups : list string) : M unit :=
  for_each supergroups (fun sg =>
    try_except (deliver_body w forward_order msgs sg)
               (fun _ => emit (EvLogError (VStr sg)))).

Inductive outcome :=
| Completed            (* reached "Forward operation complete" *)
| SkippedWindow        (* returned: outside the time window *)
| SourceUnavailable    (* returned: the source entity was not found *)
| NothingToForward     (* returned: no messages *)
| Raised               (* an exception left the coroutine *)
| FetchDiverged.       (* the paging loop did not end *)

Record cycle_result := mk_cycle {
  cr_outcome : outcome;
  cr_store : ConfigManager;
  cr_trace : list event;
  cr_resolved : list RawMessage
}.

(** Lines 71-78: the message set of the cycle. *)
Definition resolve_window (cm : ConfigManager) (w : World)
    (forward_mode : value) : outcome + (list event * list RawMessage) :=
  if bool_decide (forward_mode = VStr "today") then
    match fetch_all_today_messages (w_feed w) (w_clock_fetch w) with
    | Some r => inr r
    | None => inl FetchDiverged
    end
  else
    match get_last_forwarded_id cm with
    | None => inl Raised
    | Some last_id => inr ([EvGetMessages 0 last_id], fetch_new w last_id)
    end.

(** single_user_forwarder.py, [forward_messages_async]: one cycle. *)
Definition forward_messages_async (cm : ConfigManager) (w : World)
  : cycle_result :=
  let cfg := config cm in
  let now := PyTime.now utc (w_clock w) in
  match window_open cfg now with
  | None => mk_cycle Raised cm [] []
  | Some false => mk_cycle SkippedWindow cm [] []
  | Some true =>
      let source_channel := cfg_get cfg "source_channel" (VStr "@somechannel") in
      if negb (w_entity w source_channel) then
        mk_cycle SourceUnavailable cm
          [EvGetEntity source_channel false; EvLogError source_channel] []
      else
        let tr0 := [EvGetEntity source_channel true] in
        let forward_mode := cfg_get cfg "forward_mode" (VStr "new") in
        match resolve_window cm w forward_mode with
        | inl o => mk_cycle o cm tr0 []
        | inr (tr1, []) => mk_cycle NothingToForward cm (tr0 ++ tr1) []
        | inr (tr1, messages_to_forward) =>
            let forward_order := cfg_get cfg "forward_order" (VStr "one_by_one") in
            match py_iter (cfg_get cfg "supergroups" (VList [])) with
            | None => mk_cycle Raised cm (tr0 ++ tr1) messages_to_forward
            | Some supergroups =>
                let d := deliver w forward_order messages_to_forward supergroups in
                let tr2 := tr0 ++ tr1 ++ trace_of d in
                match snd d with
                | inl _ => mk_cycle Raised cm tr2 messages_to_forward
                | inr _ =>
                    if bool_decide (forward_mode = VStr "new") then
                      match max_id messages_to_forward with
                      | Some m =>
                          mk_cycle Completed (set_last_forwarded_id cm m)
                            (tr2 ++ [EvSetLastId m]) messages_to_forward
                      | None => mk_cycle Raised cm tr2 messages_to_forward
                      end
                    else mk_cycle Completed cm tr2 messages_to_forward
                end
            end
        end
  end.

(** Successive cycles, each on the store the previous one left. *)
Fixpoint run_cycles (cm : ConfigManager) (ws : list World)
  : list cycle_result :=
  match ws with
  | [] => []
  | w :: ws' =>
      let r := forward_messages_async cm w in
      r :: run_cycles (cr_store r) ws'
  end.

End Legacy.

(* ===================================================================== *)
(** ** Auxiliary definitions for the statements *)
(* ===================================================================== *)

Module Aux.
Import PyVal PyTime Eff Feed Domain Gateway.

(** What [forward_text] does for one target, by the backend's answer. *)
Definition target_trace (send : string -> RawMessage -> send_result)
    (r : RawMessage) (delay : Z) (tg : string) : list event :=
  match send tg r with
  | SendOk => [EvForwarded tg [id r]; EvSleep delay]
  | SendFloodWait seconds => [EvRejected tg [id r]; EvSleep seconds]
  | SendFailed => [EvRejected tg [id r]; EvLogError (VStr tg)]
  end.

(** The messages a page request starting below [offset_id] can reach. *)
Definition reachable (feed : list RawMessage) (offset_id : Z)
  : list RawMessage :=
  List.filter
    (fun m => ((offset_id =? 0) || (id m <? offset_id)) && (0 <? id m)) feed.

(** The part of the feed above a watermark. *)
Definition above (feed : list RawMessage) (last_id : Z) : list RawMessage :=
  List.filter (fun m => last_id <? id m) feed.

(** Events that fetch from the source, send to a destination or move the
    watermark. *)
Definition touches_feed (ev : event) : bool :=
  match ev with
  | EvGetMessages _ _ | EvForwarded _ _ | EvRejected _ _ | EvSetLastId _ => true
  | EvGetEntity _ _ | EvSleep _ | EvLogError _ => false
  end.

(** The calendar day, in the configured zone, of an instant. *)
Definition local_day (tz : zone) (clock : Z) : Z :=
  wall (now tz clock) / 86400.

(** *** A sample day in Asia/Tehran (UTC+03:30) *)

Definition tehran : zone := fun _ => 12600.

(** Local midnight of the sample day, as a wall clock. *)
Definition sample_midnight : Z := 20000 * 86400.

(** The instant at which the clocks of [tehran] show [wall_clock]. *)
Definition at_tehran (wall_clock : Z) : Z := wall_clock - 12600.

(** Three text messages: 23:50 the day before, 00:01 and 10:00 on the
    sample day, Tehran time. *)
Definition msg_2350 : RawMessage :=
  mk_raw 1 (at_tehran (sample_midnight - 600)) "late" None.
Definition msg_0001 : RawMessage :=
  mk_raw 2 (at_tehran (sample_midnight + 60)) "early" None.
Definition msg_1000 : RawMessage :=
  mk_raw 3 (at_tehran (sample_midnight + 36000)) "morning" None.


Definition sample_feed : list RawMessage := [msg_1000; msg_0001; msg_2350].

(** Noon of the sample day, Tehran time. *)
Definition sample_noon : Z := at_tehran (sample_midnight + 43200).

(** *** Two passes of the continuous forwarder on one day *)

Definition sample_settings : UseCases.Settings :=
  UseCases.mk_settings "list" ["@g1"] utc 0 24 60.

Definition pass_one : UseCases.Env :=
  UseCases.mk_env (sample_midnight + 3600) (sample_midnight + 3600)
    [mk_raw 1 (sample_midnight + 60) "first" None] []
    (fun _ _ => SendOk).

Definition pass_two : UseCases.Env :=
  UseCases.mk_env (sample_midnight + 7200) (sample_midnight + 7200)
    [mk_raw 2 (sample_midnight + 7000) "second" None;
     mk_raw 1 (sample_midnight + 60) "first" None] []
    (fun _ _ => SendOk).

Definition window_settings : UseCases.Settings :=
  UseCases.mk_settings "list" ["@g1"] tehran 8 22 60.

(** *** A sample store and sample worlds for the cron-driven forwarder *)

Definition sample_config (last_id : Z) (enabled : bool) (sgs : list string)
  : gmap string value :=
  <["source_channel" := VStr "@source"]>
  (<["supergroups" := VList sgs]>
  (<["forward_mode" := VStr "new"]>
  (<["forward_order" := VStr "one_by_one"]>
  (<["time_interval_enabled" := VBool enabled]>
  (<["start_hour" := VInt 8]>
  (<["end_hour" := VInt 22]>
  (<["last_forwarded_id" := VInt last_id]> ∅))))))).

Definition sample_store (last_id : Z) (sgs : list string)
  : Legacy.ConfigManager :=
  Legacy.mk_cm (sample_config last_id true sgs) (sample_config last_id true sgs).

(** A text message with id [i], dated [i] minutes after 10:00 UTC. *)
Definition text_msg (i : Z) : RawMessage :=
  mk_raw i (sample_midnight + 36000 + 60 * i) "text" None.

(** The messages with ids [n], [n-1], ..., 1, newest first. *)
Definition descending (n : nat) : list RawMessage :=
  map (fun k => text_msg (Z.of_nat k)) (rev (seq 1 n)).

(** 12:00 UTC; every entity but "@b" resolves and every send is accepted. *)
Definition sample_world (feed : list RawMessage) : Legacy.World :=
  Legacy.mk_world (sample_midnight + 43200) (sample_midnight + 43200)
    (fun who => negb (bool_decide (who = VStr "@b")))
    feed (fun _ _ => SendOk).

(** The same, with a source that cannot be found. *)
Definition lost_world (feed : list RawMessage) : Legacy.World :=
  Legacy.mk_world (sample_midnight + 43200) (sample_midnight + 43200)
    (fun _ => false) feed (fun _ _ => SendOk).

(** A backend that answers sends to "@b" with a flood wait of 30 s. *)
Definition flooded (tg : string) (_ : RawMessage) : send_result :=
  if bool_decide (tg = "@b") then SendFloodWait 30 else SendOk.

End Aux.

(* ===================================================================== *)
(** ** Reading traces and sequences *)
(* ===================================================================== *)

Module Reading.
Import PyVal PyTime Eff Feed Domain Gateway UseCases.

(** The destinations of the send attempts of a trace, accepted or not, in
    the order they were made. *)
Fixpoint attempted (tr : list event) : list string :=
  match tr with
  | [] => []
  | EvForwarded d _ :: tr' | EvRejected d _ :: tr' => d :: attempted tr'
  | _ :: tr' => attempted tr'
  end.

(** The seconds a trace spends sleeping. *)
Fixpoint slept (tr : list event) : Z :=
  match tr with
  | [] => 0
  | EvSleep s :: tr' => s + slept tr'
  | _ :: tr' => slept tr'
  end.

(** The longest prefix of [msgs] whose individual sends [send] accepts. *)
Fixpoint accepted_prefix (send : list RawMessage -> send_result)
    (msgs : list RawMessage) : list RawMessage :=
  match msgs with
  | [] => []
  | m :: rest =>
      match send [m] with
      | SendOk => m :: accepted_prefix send rest
      | SendFloodWait _ | SendFailed => []
      end
  end.

(** The longest prefix of [l] on which [keep] holds. *)
Fixpoint while_true {A} (keep : A -> bool) (l : list A) : list A :=
  match l with
  | [] => []
  | x :: l' => if keep x then x :: while_true keep l' else []
  end.

(** The pause [forward_text] makes after trying one target: the pacing
    delay after an accepted send, the cooldown after a flood wait, none
    after any other failure. *)
Definition target_pause (send : string -> RawMessage -> send_result)
    (r : RawMessage) (delay : Z) (tg : string) : Z :=
  match send tg r with
  | SendOk => delay
  | SendFloodWait seconds => seconds
  | SendFailed => 0
  end.

Definition total (l : list Z) : Z := foldr Z.add 0 l.

(** A feed of 121 messages of the sample day, a photo without caption on
    top of 120 text messages. *)
Definition photo_on_top : list RawMessage :=
  mk_raw 121 (Aux.sample_midnight + 50000) "" (Some "photo")
    :: Aux.descending 120.

(** The state [run_forever] is in when it starts its [k]-th pass (from 0),
    provided the passes before it all went back to the top of the loop. *)
Fixpoint state_at (s : Settings) (envs : list Env) (st : State) (k : nat)
  : State :=
  match k, envs with
  | S k', e :: envs' => state_at s envs' (p_state (iteration s e st)) k'
  | _, _ => st
  end.

End Reading.

(* ===================================================================== *)
(** ** teleforwarder: listen mode and the group listing *)
(* ===================================================================== *)

Module Listen.
Import PyVal PyTime Eff Feed Domain Gateway UseCases.

(** use_cases.py, [ForwardOnNew.start]: the handler registered for
    NewMessage events, run on one event's message.  [m.text] is empty
    exactly when the message has no text; the text it gives is the
    message's. *)
Definition handler (s : Settings) (e : Env) (m : RawMessage) : M unit :=
  if String.eqb (message m) "" then ret tt
  else
    let tm := {| message_id := id m; tm_date := m_date m;
                 content := message m; raw := Some m |} in
    let targets :=
      if String.eqb (forward_to s) "all" then e_groups e else target_groups s in
    match targets with
    | [] => emit (EvLogError (VInt (id m)))
    | _ => forward_text (e_send e) targets tm 1
    end.





End Listen.

(* ===================================================================== *)
(** ** src/utils: loading the configuration and the admin commands *)
(* ===================================================================== *)

Module Admin.
Import PyVal PyTime Eff Feed Legacy.

(** config_manager.py, the default configuration of [load_config]. *)
Definition default_config : gmap string value :=
  <["source_channel" := VStr "@somechannel"]>
  (<["supergroups" := VList ["@group1"]]>
  (<["cron_schedule" := VStr "* * * * *"]>
  (<["forward_mode" := VStr "new"]>
  (<["forward_order" := VStr "one_by_one"]>
  (<["time_interval_enabled" := VBool true]>
  (<["start_hour" := VInt 8]>
  (<["end_hour" := VInt 22]>
  (<["user_accounts" := VList []]>
  (<["last_forwarded_id" := VInt 0]> ∅))))))))).

(** [ConfigManager.__init__] with [load_config]: [file] is the parsed
    content of config.json, [None] when the file does not exist. *)
Definition init (file : option (gmap string value)) : ConfigManager :=
  match file with
  | None => save_config (mk_cm ∅ ∅) default_config
  | Some cfg => mk_cm cfg cfg
  end.

(** [s.lower()], on ASCII letters. *)
Definition lower_char (c : ascii) : ascii :=
  let n := nat_of_ascii c in
  if ((65 <=? n) && (n <=? 90))%nat then ascii_of_nat (n + 32) else c.

Definition py_lower (s : string) : string :=
  string_of_list_ascii (map lower_char (list_ascii_of_string s)).

(** [s.strip()], on ASCII white space. *)
Definition strip_chars (l : list ascii) : list ascii :=
  rev (lstrip (rev (lstrip l))).

Definition py_strip (s : string) : string :=
  string_of_list_ascii (strip_chars (list_ascii_of_string s)).

(** [s.split(sep)] for a one-character separator. *)
Fixpoint split_chars (sep : ascii) (l : list ascii) : list (list ascii) :=
  match l with
  | [] => [[]]
  | c :: l' =>
      if Ascii.eqb c sep then [] :: split_chars sep l'
      else match split_chars sep l' with
           | piece :: pieces => (c :: piece) :: pieces
           | [] => [[c]]
           end
  end.

(** [" ".join(args)] *)
Definition join_args (args : list string) : string :=
  String.concat " " args.

(** What a command answers. *)
Inductive reply :=
| Updated
| Usage
| Invalid
| NotNumeric.

(** admin_bot.py, [setchannel] *)
Definition setchannel (cm : ConfigManager) (args : list string)
  : ConfigManager * reply :=
  match args with
  | a :: _ => (update_config cm "source_channel" (VStr (py_strip a)), Updated)
  | [] => (cm, Usage)
  end.

(** [[g.strip() for g in groups_str.split(",") if g.strip()]] *)
Definition parse_groups (groups_str : string) : list string :=
  map string_of_list_ascii
    (List.filter (fun g => match g with [] => false | _ => true end)
       (map strip_chars
          (split_chars ","%char (list_ascii_of_string groups_str)))).

(** admin_bot.py, [setgroups] *)
Definition setgroups (cm : ConfigManager) (args : list string)
  : ConfigManager * reply :=
  match args with
  | _ :: _ =>
      (update_config cm "supergroups" (VList (parse_groups (join_args args))),
       Updated)
  | [] => (cm, Usage)
  end.

(** admin_bot.py, [setmode] *)
Definition setmode (cm : ConfigManager) (args : list string)
  : ConfigManager * reply :=
  match args with
  | a :: _ =>
      let mode := py_lower a in
      if String.eqb mode "today" || String.eqb mode "new" then
        (update_config cm "forward_mode" (VStr mode), Updated)
      else (cm, Invalid)
  | [] => (cm, Usage)
  end.

(** admin_bot.py, [setorder] *)
Definition setorder (cm : ConfigManager) (args : list string)
  : ConfigManager * reply :=
  match args with
  | a :: _ =>
      let order := py_lower a in
      if String.eqb order "batch" || String.eqb order "one_by_one" then
        (update_config cm "forward_order" (VStr order), Updated)
      else (cm, Invalid)
  | [] => (cm, Usage)
  end.

(** admin_bot.py, [settimeinterval] *)
Definition settimeinterval (cm : ConfigManager) (args : list string)
  : ConfigManager * reply :=
  match args with
  | [] => (cm, Usage)
  | a0 :: rest =>
      if String.eqb (py_lower a0) "always" then
        (update_config cm "time_interval_enabled" (VBool false), Updated)
      else
        match rest with
        | [a1] =>
            match int_of_str a0 with
            | None => (cm, NotNumeric)
            | Some st =>
                match int_of_str a1 with
                | None => (cm, NotNumeric)
                | Some ed =>
                    if (0 <=? st) && (st <? ed) && (ed <=? 24) then
                      (update_config
                         (update_config
                            (update_config cm "time_interval_enabled" (VBool true))
                            "start_hour" (VInt st))
                         "end_hour" (VInt ed), Updated)
                    else (cm, Invalid)
                end
            end
        | _ => (cm, Usage)
        end
  end.

(** admin_bot.py, [setcron] *)
Definition setcron (cm : ConfigManager) (args : list string)
  : ConfigManager * reply :=
  match args with
  | _ :: _ => (update_config cm "cron_schedule" (VStr (join_args args)), Updated)
  | [] => (cm, Usage)
  end.

(** [_add_handlers]: the handler registered for a command name, if any.
    [status] only reads the configuration. *)
Definition command (name : string) (cm : ConfigManager) (args : list string)
  : ConfigManager * reply :=
  if String.eqb name "setchannel" then setchannel cm args
  else if String.eqb name "setgroups" then setgroups cm args
  else if String.eqb name "setmode" then setmode cm args
  else if String.eqb name "setorder" then setorder cm args
  else if String.eqb name "settimeinterval" then settimeinterval cm args
  else if String.eqb name "setcron" then setcron cm args
  else (cm, Usage).

(** What happens to the store over time: cron cycles and admin commands,
    in any order. *)
Inductive step :=
| Cycle (w : World)
| Command (name : string) (args : list string).

Definition do_step (cm : ConfigManager) (st : step) : ConfigManager :=
  match st with
  | Cycle w => cr_store (forward_messages_async cm w)
  | Command name args => fst (command name cm args)
  end.

Definition run (cm : ConfigManager) (steps : list step) : ConfigManager :=
  fold_left do_step steps cm.

(** The hours of the window are integers with [0 <= start < end <= 24]. *)
Definition window_well_formed (cfg : gmap string value) : Prop :=
  exists st ed, cfg_get cfg "start_hour" (VInt 8) = VInt st /\
                cfg_get cfg "end_hour" (VInt 22) = VInt ed /\
                0 <= st /\ st < ed /\ ed <= 24.

(** A store as the program itself leaves it: file and memory agree, the
    window is well formed, mode and order are known words, the watermark
    is an integer, the destinations are a list and the window flag is a
    boolean. *)
Definition well_formed (cm : ConfigManager) : Prop :=
  saved cm = config cm /\
  window_well_formed (config cm) /\
  (cfg_get (config cm) "forward_mode" (VStr "new") = VStr "new" \/
   cfg_get (config cm) "forward_mode" (VStr "new") = VStr "today") /\
  (cfg_get (config cm) "forward_order" (VStr "one_by_one") = VStr "one_by_one" \/
   cfg_get (config cm) "forward_order" (VStr "one_by_one") = VStr "batch") /\
  (exists z, cfg_get (config cm) "last_forwarded_id" (VInt 0) = VInt z) /\
  (exists l, cfg_get (config cm) "supergroups" (VList []) = VList l) /\
  (exists b, cfg_get (config cm) "time_interval_enabled" (VBool true) = VBool b).

(** A command either leaves the store alone or rewrites it, file and
    memory alike, without touching the watermark. *)
Definition keeps_watermark (cm cm' : ConfigManager) : Prop :=
  cm' = cm \/
  (saved cm' = config cm' /\
   config cm' !! "last_forwarded_id" = config cm !! "last_forwarded_id").

End Admin.

(* ===================================================================== *)
(** ** src/main.py: reading the cron schedule *)
(* ===================================================================== *)

Module Main.
Import PyVal Legacy.

Definition cons_word (w : list ascii) (ws : list (list ascii))
  : list (list ascii) :=
  match w with
  | [] => ws
  | _ => w :: ws
  end.

(** The word that starts at the head of [l] (empty when [l] starts with
    white space) and the words after it. *)
Fixpoint words_from (l : list ascii) : list ascii * list (list ascii) :=
  match l with
  | [] => ([], [])
  | c :: l' =>
      let (w, ws) := words_from l' in
      if is_space c then ([], cons_word w ws) else (c :: w, ws)
  end.

(** [s.split()]: the maximal runs of characters that are not white space. *)
Definition py_split (s : string) : list string :=
  let (w, ws) := words_from (list_ascii_of_string s) in
  map string_of_list_ascii (cons_word w ws).

(** main.py, lines 45-55: the five fields handed to [CronTrigger];
    [None] when the stored schedule is not a string. *)
Definition cron_fields (cfg : gmap string value) : option (list string) :=
  match cfg_get cfg "cron_schedule" (VStr "* * * * *") with
  | VStr cron_expr =>
      let parts := py_split cron_expr in
      Some (if (length parts =? 5)%nat then parts else ["*"; "*"; "*"; "*"; "*"])
  | VInt _ | VBool _ | VList _ => None
  end.

(** A command argument as the bot framework hands it over: not empty and
    free of white space. *)
Definition is_token (a : string) : Prop :=
  a <> ""%string /\
  Forall (fun c => is_space c = false) (list_ascii_of_string a).

End Main.

(* ===================================================================== *)
(** * Properties *)
(* ===================================================================== *)

Import PyVal PyTime Eff Feed Domain Gateway Aux.

(** ** Traces *)

Section TraceFacts.

Lemma delivered_to_app dest (t1 t2 : list event) :
  delivered_to dest (t1 ++ t2) = delivered_to dest t1 ++ delivered_to dest t2.
Proof.
  induction t1 as [|ev t1 IH]; simpl; [reflexivity|].
  destruct ev; simpl; auto.
  case_bool_decide; simpl; rewrite IH; auto using app_assoc.
Qed.

Lemma attempts_to_app dest (t1 t2 : list event) :
  attempts_to dest (t1 ++ t2) = (attempts_to dest t1 + attempts_to dest t2)%nat.
Proof.
  induction t1 as [|ev t1 IH]; simpl; [reflexivity|].
  destruct ev; simpl; auto; case_bool_decide; simpl; rewrite IH; auto.
Qed.

Lemma bind_returns {A B} (m : M A) (k : A -> M B) tr a tr' b :
  m = (tr, inr a) -> k a = (tr', inr b) -> bind m k = (tr ++ tr', inr b).
Proof. intros -> Hk. unfold bind. rewrite Hk. reflexivity. Qed.

(** A loop whose body never raises never raises, and its trace is the
    bodies' traces in order. *)
Lemma for_each_returns {X} (xs : list X) (body : X -> M unit) :
  (forall x, In x xs -> exists tr, body x = (tr, inr tt)) ->
  for_each xs body = (concat (map (fun x => fst (body x)) xs), inr tt).
Proof.
  induction xs as [|x xs IH]; intros Hb; simpl; [reflexivity|].
  destruct (Hb x) as [tr Hx]; [now left|].
  rewrite Hx. simpl. rewrite IH; [reflexivity|].
  intros y Hy. apply Hb. now right.
Qed.

End TraceFacts.

(** ** Round-robin cursor *)

(** C1, on the code.  For any three messages and starting index 1, one
    generator yields the indices 1, 2, 0 and is then exhausted; the cursor
    the caller keeps is the last index yielded (0), so the next generator
    starts there again: the first five visits are 1, 2, 0, 0, 1, not
    1, 2, 0, 1, 2.  On an empty list the generator yields nothing and does
    not raise. *)
Theorem round_robin_five_visits {A} (m0 m1 m2 : A) (index : Z) :
  round_robin [m0; m1; m2] 1 = Some [(1, m1); (2, m2); (0, m0)] /\
  cursor_after 1 [(1, m1); (2, m2); (0, m0)] = 0 /\
  option_map (take 5) (visits 2 [m0; m1; m2] 1) = Some [1; 2; 0; 0; 1] /\
  round_robin (@nil A) index = Some [].
Proof. repeat split; reflexivity. Qed.

Lemma py_getitem_in_range {A} (l : list A) (i : Z) :
  0 <= i < Z.of_nat (length l) -> exists m, py_getitem l i = Some m.
Proof.
  intros Hi. unfold py_getitem.
  destruct (0 <=? i) eqn:E; [|lia].
  destruct (lookup_lt_is_Some_2 l (Z.to_nat i)) as [m Hm]; [lia|].
  exists m. exact Hm.
Qed.

(** One invocation from a valid position [p] sweeps the whole list once:
    it yields [length l] pairs, the [k]-th at index [(p + k) mod L]. *)
Lemma round_robin_loop_indices {A} (l : list A) (n : nat) :
  forall i, 0 <= i < Z.of_nat (length l) ->
  exists ys, round_robin_loop l (Z.of_nat (length l)) i n = Some ys /\
    map fst ys =
    map (fun k => (i + Z.of_nat k) mod Z.of_nat (length l)) (seq 0 n).
Proof.
  induction n as [|n IH]; intros i Hi; simpl.
  - exists []. split; reflexivity.
  - destruct (py_getitem_in_range l i Hi) as [m ->].
    destruct (IH ((i + 1) mod Z.of_nat (length l))) as (ys & -> & Hys).
    { apply Z.mod_pos_bound. lia. }
    exists ((i, m) :: ys). split; [reflexivity|].
    simpl. rewrite Hys. f_equal.
    + rewrite Z.add_0_r. symmetry. apply Z.mod_small. exact Hi.
    + rewrite <- seq_shift, map_map. apply map_ext. intros k.
      rewrite Zplus_mod_idemp_l. f_equal. lia.
Qed.

Lemma round_robin_sweep {A} (l : list A) (p : Z) :
  0 <= p < Z.of_nat (length l) ->
  exists ys, round_robin l p = Some ys /\ length ys = length l /\
    map fst ys =
    map (fun k => (p + Z.of_nat k) mod Z.of_nat (length l)) (seq 0 (length l)).
Proof.
  intros Hp. destruct (round_robin_loop_indices l (length l) p Hp) as (ys & Hr & Hi).
  exists ys. split; [|split; [|exact Hi]].
  - destruct l; [simpl in Hp; lia|exact Hr].
  - rewrite <- (length_map fst ys), Hi, length_map, length_seq. reflexivity.
Qed.

Import UseCases Legacy.

(** ** Delivery in the continuous forwarder *)

Lemma forward_text_trace send targets msg r delay :
  raw msg = Some r ->
  forward_text send targets msg delay =
  (concat (map (target_trace send r delay) targets), inr tt).
Proof.
  intros Hr. unfold forward_text. rewrite Hr.
  rewrite for_each_returns.
  - f_equal. f_equal. apply map_ext. intros tg. unfold target_trace.
    destruct (send tg r); reflexivity.
  - intros tg _. destruct (send tg r); simpl; eauto.
Qed.

(** [forward_text] never lets an exception out. *)
Lemma forward_text_returns send targets msg delay :
  snd (forward_text send targets msg delay) = inr tt.
Proof.
  destruct (raw msg) as [r|] eqn:Hr.
  - now rewrite (forward_text_trace _ _ _ r).
  - unfold forward_text. now rewrite Hr.
Qed.

Lemma forward_text_app send pre post msg delay :
  trace_of (forward_text send (pre ++ post) msg delay) =
  trace_of (forward_text send pre msg delay) ++
  trace_of (forward_text send post msg delay).
Proof.
  destruct (raw msg) as [r|] eqn:Hr.
  - rewrite !(forward_text_trace _ _ _ r) by assumption.
    unfold trace_of. simpl. now rewrite map_app, concat_app.
  - unfold forward_text. rewrite Hr. reflexivity.
Qed.

(** The sweep of [run_forever] goes through every message yielded. *)
Lemma sweep_returns s e targets (ys : list (Z * TextMessage)) :
  for_each ys (sweep_body s e targets) =
  (concat (map (fun y => fst (sweep_body s e targets y)) ys), inr tt).
Proof.
  apply for_each_returns. intros y _. unfold sweep_body.
  destruct (forward_text (e_send e) targets (snd y) 1) as [tr res] eqn:E.
  pose proof (forward_text_returns (e_send e) targets (snd y) 1) as Hres.
  rewrite E in Hres. simpl in Hres. subst res. simpl. eauto.
Qed.

Lemma attempts_target_trace send r delay tg tg' :
  attempts_to tg (target_trace send r delay tg') =
  if bool_decide (tg' = tg) then 1%nat else 0%nat.
Proof.
  unfold target_trace. destruct (send tg' r); simpl; case_bool_decide; reflexivity.
Qed.

(** C8.  When the backend answers a send to [tg] with a flood wait of [c]
    seconds, [forward_text] sleeps [c] seconds right after the rejected
    send and goes on with the targets that follow; it returns normally, it
    makes one send attempt per occurrence of a target in the list (the
    rejected send is not repeated), and the sweep that called it goes on
    to the next message. *)
Theorem flood_wait_sleeps_and_continues
    (send : string -> RawMessage -> send_result)
    (pre post : list string) (tg : string) (msg : TextMessage)
    (r : RawMessage) (delay c : Z)
    (s : Settings) (e : Env) (targets : list string)
    (ys : list (Z * TextMessage)) :
  raw msg = Some r ->
  send tg r = SendFloodWait c ->
  forward_text send (pre ++ tg :: post) msg delay =
    (trace_of (forward_text send pre msg delay)
       ++ [EvRejected tg [id r]; EvSleep c]
       ++ trace_of (forward_text send post msg delay), inr tt) /\
  attempts_to tg (trace_of (forward_text send (pre ++ tg :: post) msg delay)) =
    count_occ string_dec (pre ++ tg :: post) tg /\
  snd (for_each ys (sweep_body s e targets)) = inr tt.
Proof.
  intros Hr Hs. split; [|split].
  - rewrite !(forward_text_trace _ _ _ r) by assumption.
    unfold trace_of. simpl. rewrite map_app, concat_app. simpl.
    unfold target_trace at 2. rewrite Hs. reflexivity.
  - rewrite (forward_text_trace _ _ _ r) by assumption. unfold trace_of. simpl.
    clear Hs. induction (pre ++ tg :: post) as [|x l IH]; [reflexivity|].
    simpl. rewrite attempts_to_app, attempts_target_trace, IH.
    case_bool_decide; destruct (string_dec x tg); try congruence; reflexivity.
  - now rewrite sweep_returns.
Qed.

(** ** Paging *)

Lemma last_some_in {A} (l : list A) (x : A) :
  List.last (map Some l) None = Some x -> In x l.
Proof.
  induction l as [|a l IH]; simpl; [discriminate|].
  destruct l as [|b l]; simpl in *.
  - intros [= ->]. now left.
  - intros H. right. apply IH. exact H.
Qed.

Lemma last_none_nil {A} (l : list A) :
  List.last (map Some l) None = None -> l = [].
Proof.
  induction l as [|a l IH]; simpl; [reflexivity|].
  destruct l as [|b l]; simpl in *; [discriminate|].
  intros H. specialize (IH H). discriminate.
Qed.

Lemma filter_length_lt {A} (P Q : A -> bool) (l : list A) (x : A) :
  (forall y, P y = true -> Q y = true) ->
  In x l -> Q x = true -> P x = false ->
  (length (List.filter P l) < length (List.filter Q l))%nat.
Proof.
  intros HPQ. induction l as [|a l IH]; simpl; [tauto|].
  assert (Hle : (length (List.filter P l) <= length (List.filter Q l))%nat).
  { clear IH. induction l as [|b l IHl]; simpl; [lia|].
    destruct (P b) eqn:Pb; [rewrite (HPQ b Pb); simpl; lia|].
    destruct (Q b); simpl; lia. }
  intros [->|Hin] Qx Px.
  - rewrite Qx, Px. simpl. lia.
  - specialize (IH Hin Qx Px).
    destruct (P a) eqn:Pa; [rewrite (HPQ a Pa); simpl; lia|].
    destruct (Q a); simpl; lia.
Qed.

Lemma get_messages_in feed limit offset_id min_id m :
  In m (get_messages feed limit offset_id min_id) ->
  In m feed /\ min_id < id m /\ (offset_id = 0 \/ id m < offset_id).
Proof.
  unfold get_messages. intros H.
  apply list_elem_of_In, elem_of_take in H as (i & H & _).
  apply list_elem_of_lookup_2, list_elem_of_In, filter_In in H as [Hin Hp].
  apply andb_true_iff in Hp as [Ho Hm]. apply orb_true_iff in Ho.
  split; [exact Hin|]. split; [lia|]. destruct Ho; [left|right]; lia.
Qed.

(** Each further page starts strictly below the previous one, so the
    requests reach fewer and fewer messages. *)
Lemma next_page_shrinks feed offset_id oldest :
  In oldest (get_messages feed 100 offset_id 0) ->
  (length (reachable feed (id oldest)) < length (reachable feed offset_id))%nat.
Proof.
  intros H. apply get_messages_in in H as (Hin & Hpos & Hoff).
  apply (filter_length_lt _ _ feed oldest); [|exact Hin| |].
  - intros y Hy. apply andb_true_iff in Hy as [Hy1 Hy2].
    apply orb_true_iff in Hy1. apply andb_true_iff. split; [|exact Hy2].
    apply orb_true_iff. destruct Hoff; [left|right]; lia.
  - apply andb_true_iff. split; [|lia]. apply orb_true_iff.
    destruct Hoff; [left|right]; lia.
  - apply andb_false_iff. left. apply orb_false_iff. split; lia.
Qed.

Lemma fetch_loop_total feed day_start :
  forall fuel offset msgs,
  (length (reachable feed offset) < fuel)%nat ->
  exists r, fetch_loop fuel feed day_start offset msgs = Some r.
Proof.
  induction fuel as [|fuel IH]; intros offset msgs Hlt; [lia|].
  simpl. destruct (List.last (map Some (get_messages feed 100 offset 0)) None)
    as [oldest|] eqn:El; [|eauto].
  destruct (before_day_start day_start oldest); [eauto|].
  apply IH. apply last_some_in in El.
  pose proof (next_page_shrinks feed offset oldest El). lia.
Qed.

(** The paging loop of [fetch_today_texts] always ends. *)
Lemma fetch_today_texts_total feed tz clock :
  exists msgs, fetch_today_texts feed tz clock = Some msgs.
Proof.
  unfold fetch_today_texts.
  destruct (fetch_loop_total feed (start_of_today tz clock) (S (length feed)) 0 [])
    as [r ->]; [|simpl; eauto].
  pose proof (List.filter_length_le
    (fun m => ((0 =? 0) || (id m <? 0)) && (0 <? id m)) feed).
  unfold reachable. lia.
Qed.



(** ** Sorting by date, and the largest id *)

Lemma insert_by_perm {A} (key : A -> Z) (x : A) (l : list A) :
  Permutation (insert_by key x l) (x :: l).
Proof.
  induction l as [|y l IH]; simpl; [reflexivity|].
  destruct (key x <=? key y); [reflexivity|].
  rewrite IH. apply perm_swap.
Qed.

Lemma sort_by_perm {A} (key : A -> Z) (l : list A) :
  Permutation (sort_by key l) l.
Proof.
  induction l as [|x l IH]; simpl; [reflexivity|].
  rewrite insert_by_perm. now constructor.
Qed.

Lemma insert_by_sorted {A} (key : A -> Z) (x : A) (l : list A) :
  StronglySorted (fun a b => key a <= key b) l ->
  StronglySorted (fun a b => key a <= key b) (insert_by key x l).
Proof.
  induction 1 as [|y l Hs IH Hall]; simpl.
  - repeat constructor.
  - destruct (key x <=? key y) eqn:E.
    + constructor; [now constructor|].
      constructor; [lia|]. eapply Forall_impl; [exact Hall|].
      simpl. intros. lia.
    + constructor; [exact IH|].
      rewrite (insert_by_perm key x l). constructor; [lia|exact Hall].
Qed.

Lemma sort_by_sorted {A} (key : A -> Z) (l : list A) :
  StronglySorted (fun a b => key a <= key b) (sort_by key l).
Proof.
  induction l as [|x l IH]; simpl; [constructor|].
  now apply insert_by_sorted.
Qed.

Lemma sort_by_nil_inv {A} (key : A -> Z) (l : list A) :
  sort_by key l = [] -> l = [].
Proof.
  intros H. pose proof (sort_by_perm key l) as P. rewrite H in P.
  now apply Permutation_nil.
Qed.

Lemma fold_max_ge (l : list Z) :
  forall a, a <= fold_left Z.max l a /\
            Forall (fun z => z <= fold_left Z.max l a) l.
Proof.
  induction l as [|z l IH]; intros a; simpl; [split; [lia|constructor]|].
  destruct (IH (Z.max a z)) as [H1 H2]. split; [lia|].
  constructor; [lia|exact H2].
Qed.

Lemma max_id_ge (msgs : list RawMessage) (z : Z) :
  max_id msgs = Some z -> forall m, In m msgs -> id m <= z.
Proof.
  destruct msgs as [|m0 rest]; simpl; [discriminate|].
  intros [= <-] m [<-|Hin].
  - apply fold_max_ge.
  - destruct (fold_max_ge (map id rest) (id m0)) as [_ H].
    rewrite List.Forall_forall in H. apply H. now apply in_map.
Qed.

Lemma max_id_some (msgs : list RawMessage) :
  msgs <> [] -> exists z, max_id msgs = Some z.
Proof. destruct msgs; [congruence|simpl; eauto]. Qed.

(** The incremental fetch returns only ids above the watermark. *)
Lemma fetch_new_above (w : World) (last_id : Z) (m : RawMessage) :
  In m (fetch_new w last_id) -> In m (w_feed w) /\ last_id < id m.
Proof.
  unfold fetch_new. intros H.
  apply (Permutation_in _ (sort_by_perm _ _)) in H.
  apply get_messages_in in H. tauto.
Qed.

(** ** The delivery step of the cron-driven forwarder *)

Lemma try_log_returns (body : M unit) (about : value) :
  exists tr, try_except body (fun _ => emit (EvLogError about)) = (tr, inr tt).
Proof.
  destruct body as [tr [e|[]]]; simpl; eauto.
Qed.

(** No exception leaves the delivery loop: every destination is tried. *)
Lemma deliver_returns (w : World) (order : value) (msgs : list RawMessage)
    (sgs : list string) :
  deliver w order msgs sgs =
  (concat (map (fun sg =>
      fst (try_except (deliver_body w order msgs sg)
             (fun _ => emit (EvLogError (VStr sg))))) sgs), inr tt).
Proof.
  unfold deliver. apply for_each_returns. intros sg _. apply try_log_returns.
Qed.

(** A destination whose entity resolves and whose sends are all accepted
    gets every message of the set, in order. *)
Lemma deliver_body_ok (w : World) (order : value) (msgs : list RawMessage)
    (sg : string) :
  w_entity w (VStr sg) = true ->
  (forall ms, w_send w sg ms = SendOk) ->
  exists tr, deliver_body w order msgs sg = (tr, inr tt) /\
             delivered_to sg tr = map id msgs.
Proof.
  intros He Hs. unfold deliver_body, get_entity. rewrite He.
  case_bool_decide.
  - rewrite Hs. simpl. eexists. split; [reflexivity|].
    simpl. rewrite bool_decide_eq_true_2 by reflexivity. apply app_nil_r.
  - assert (Hloop : exists tr,
        for_each msgs (fun msg =>
          bind (forward_messages (w_send w sg [msg]) sg [id msg])
               (fun _ => sleep 1)) = (tr, inr tt) /\
        delivered_to sg tr = map id msgs).
    { induction msgs as [|m msgs IH]; simpl.
      - eexists. split; reflexivity.
      - destruct IH as (tr & -> & Htr). rewrite Hs. simpl.
        eexists. split; [reflexivity|].
        simpl. rewrite bool_decide_eq_true_2 by reflexivity.
        simpl. now rewrite Htr. }
    destruct Hloop as (tr & -> & Htr). simpl. eexists. split; [reflexivity|].
    simpl. exact Htr.
Qed.

(** Whatever happens with a destination, nothing is delivered elsewhere. *)
Lemma deliver_body_other (w : World) (order : value) (msgs : list RawMessage)
    (sg dest : string) :
  sg <> dest ->
  delivered_to dest
    (fst (try_except (deliver_body w order msgs sg)
            (fun _ => emit (EvLogError (VStr sg))))) = [].
Proof.
  intros Hne.
  assert (Hsafe : forall (m : M unit),
            delivered_to dest (fst m) = [] ->
            delivered_to dest
              (fst (try_except m (fun _ => emit (EvLogError (VStr sg))))) = []).
  { intros [tr [e|[]]] H; simpl in *; [|exact H].
    rewrite delivered_to_app, H. reflexivity. }
  apply Hsafe. unfold deliver_body, get_entity.
  destruct (w_entity w (VStr sg)); [|reflexivity].
  case_bool_decide.
  - destruct (w_send w sg msgs); simpl; try reflexivity.
    now rewrite bool_decide_eq_false_2.
  - simpl.
    assert (Hloop : delivered_to dest (fst (for_each msgs (fun msg =>
          bind (forward_messages (w_send w sg [msg]) sg [id msg])
               (fun _ => sleep 1)))) = []).
    { induction msgs as [|m msgs IH]; simpl; [reflexivity|].
      destruct (w_send w sg [m]); simpl; try reflexivity.
      destruct (for_each msgs _) as [tr res]. simpl in *.
      rewrite bool_decide_eq_false_2 by assumption. exact IH. }
    destruct (for_each msgs _) as [tr res]. simpl in *. exact Hloop.
Qed.

(** ** One cycle of the cron-driven forwarder *)

Lemma get_after_set (cm : ConfigManager) (m : Z) :
  get_last_forwarded_id (set_last_forwarded_id cm m) = Some m /\
  persisted_last_id (set_last_forwarded_id cm m) = Some m /\
  saved (set_last_forwarded_id cm m) = config (set_last_forwarded_id cm m).
Proof.
  unfold get_last_forwarded_id, persisted_last_id, set_last_forwarded_id,
    update_config, save_config, cfg_get. simpl.
  rewrite lookup_insert_eq. auto.
Qed.

Lemma cfg_get_after_set (cm : ConfigManager) (m : Z) (key : string) (d : value) :
  key <> "last_forwarded_id"%string ->
  cfg_get (config (set_last_forwarded_id cm m)) key d = cfg_get (config cm) key d.
Proof.
  intros Hne. unfold set_last_forwarded_id, update_config, save_config, cfg_get.
  simpl. rewrite lookup_insert_ne by congruence. reflexivity.
Qed.

(** A cycle either leaves the store alone or moves the watermark, in
    "new" mode, to an id above the one it read. *)
Lemma cycle_store (cm : ConfigManager) (w : World) :
  cr_store (forward_messages_async cm w) = cm \/
  exists last m,
    get_last_forwarded_id cm = Some last /\ last < m /\
    cfg_get (config cm) "forward_mode" (VStr "new") = VStr "new" /\
    max_id (fetch_new w last) = Some m /\
    cr_store (forward_messages_async cm w) = set_last_forwarded_id cm m.
Proof.
  unfold forward_messages_async.
  destruct (window_open _ _) as [[|]|]; simpl; auto.
  destruct (negb _); simpl; auto.
  destruct (resolve_window cm w _) as [o|[tr1 msgs]] eqn:Er; simpl; auto.
  destruct msgs as [|m0 rest]; simpl; auto.
  destruct (py_iter _); simpl; auto.
  rewrite deliver_returns. simpl.
  case_bool_decide as Hmode; simpl; auto.
  right. unfold resolve_window in Er. rewrite Hmode in Er.
  rewrite bool_decide_eq_false_2 in Er by discriminate.
  destruct (get_last_forwarded_id cm) as [last|]; [|discriminate].
  injection Er as _ Hmsgs.
  exists last, (fold_left Z.max (map id rest) (id m0)).
  split; [reflexivity|]. split; [|split; [exact Hmode|]].
  - assert (Hin : In m0 (fetch_new w last)) by (rewrite Hmsgs; now left).
    apply fetch_new_above in Hin as [_ Hlt].
    pose proof (fold_max_ge (map id rest) (id m0)) as [Hge _]. lia.
  - rewrite Hmsgs. split; reflexivity.
Qed.

(** In "new" mode a cycle resolves only ids above the watermark it read. *)
Lemma cycle_resolved_above (cm : ConfigManager) (w : World) (last : Z) :
  cfg_get (config cm) "forward_mode" (VStr "new") = VStr "new" ->
  get_last_forwarded_id cm = Some last ->
  forall m, In m (cr_resolved (forward_messages_async cm w)) -> last < id m.
Proof.
  intros Hmode Hlast m. unfold forward_messages_async.
  destruct (window_open _ _) as [[|]|]; simpl; try tauto.
  destruct (negb _); simpl; try tauto.
  rewrite Hmode. unfold resolve_window.
  rewrite bool_decide_eq_false_2 by discriminate. rewrite Hlast.
  destruct (fetch_new w last) as [|m0 rest] eqn:Ef; simpl; try tauto.
  assert (Hall : forall x, In x (m0 :: rest) -> last < id x).
  { intros x Hx. rewrite <- Ef in Hx. now apply fetch_new_above in Hx. }
  destruct (py_iter _); simpl; [|apply Hall].
  rewrite deliver_returns. simpl. apply Hall.
Qed.

(** The whole result of a cycle that runs in "new" mode. *)
Lemma cycle_incremental (cm : ConfigManager) (w : World) (last : Z)
    (sgs : list string) :
  window_open (config cm) (now utc (w_clock w)) = Some true ->
  w_entity w (cfg_get (config cm) "source_channel" (VStr "@somechannel")) = true ->
  cfg_get (config cm) "forward_mode" (VStr "new") = VStr "new" ->
  get_last_forwarded_id cm = Some last ->
  py_iter (cfg_get (config cm) "supergroups" (VList [])) = Some sgs ->
  fetch_new w last <> [] ->
  exists m, max_id (fetch_new w last) = Some m /\
    forward_messages_async cm w =
    mk_cycle Completed (set_last_forwarded_id cm m)
      (([EvGetEntity (cfg_get (config cm) "source_channel" (VStr "@somechannel")) true]
        ++ [EvGetMessages 0 last]
        ++ trace_of (deliver w (cfg_get (config cm) "forward_order" (VStr "one_by_one"))
                       (fetch_new w last) sgs))
       ++ [EvSetLastId m])
      (fetch_new w last).
Proof.
  intros Hwin Hsrc Hmode Hlast Hsgs Hne.
  destruct (max_id_some _ Hne) as [m Hm]. exists m. split; [exact Hm|].
  unfold forward_messages_async. rewrite Hwin, Hsrc. simpl.
  rewrite Hmode. unfold resolve_window.
  rewrite bool_decide_eq_false_2 by discriminate. rewrite Hlast.
  destruct (fetch_new w last) as [|m0 rest] eqn:Ef; [congruence|].
  rewrite Hsgs. rewrite deliver_returns. simpl snd. cbv iota.
  rewrite bool_decide_eq_true_2 by reflexivity. rewrite Hm. reflexivity.
Qed.

(** ** Admission *)

Lemma in_allowed_window_spec (s : Settings) (clock : Z) :
  _in_allowed_window s clock = true <->
  start_hour s <= hour (now (timezone s) clock) < end_hour s.
Proof.
  unfold _in_allowed_window. rewrite andb_true_iff, Z.leb_le, Z.ltb_lt.
  reflexivity.
Qed.

Lemma window_open_enabled (cfg : gmap string value) (d : datetime) (lo hi : Z) :
  truthy (cfg_get cfg "time_interval_enabled" (VBool true)) = true ->
  as_int (cfg_get cfg "start_hour" (VInt 8)) = Some lo ->
  as_int (cfg_get cfg "end_hour" (VInt 22)) = Some hi ->
  window_open cfg d = Some ((lo <=? hour d) && (hour d <? hi)).
Proof.
  intros Hen Hlo Hhi. unfold window_open. rewrite Hen, Hlo, Hhi.
  destruct (lo <=? hour d); reflexivity.
Qed.

(** The bounds on the hours do not make the window non-empty: with
    start 10 and end 5 no hour is let in. *)
Lemma valid_settings_may_never_open :
  exists s, settings_valid s /\ forall clock, _in_allowed_window s clock = false.
Proof.
  exists (mk_settings "list" [] utc 10 5 1). split.
  - unfold settings_valid. simpl. lia.
  - intros clock.
    destruct (_in_allowed_window _ clock) eqn:E; [|reflexivity].
    apply in_allowed_window_spec in E. simpl in E. lia.
Qed.

(** The cycle returns early at the time-window test exactly when the test
    fails. *)
Lemma cycle_skipped_iff (cm : ConfigManager) (w : World) :
  cr_outcome (forward_messages_async cm w) = SkippedWindow <->
  window_open (config cm) (now utc (w_clock w)) = Some false.
Proof.
  unfold forward_messages_async.
  destruct (window_open _ _) as [[|]|]; simpl; [|tauto|split; discriminate].
  split; [|discriminate]. intros H. exfalso. revert H.
  destruct (negb _); simpl; [discriminate|].
  destruct (resolve_window cm w _) as [o|[tr1 msgs]] eqn:Er; simpl.
  - unfold resolve_window in Er.
    destruct (bool_decide _); [destruct (fetch_all_today_messages _ _)|
                               destruct (get_last_forwarded_id cm)];
      inversion Er; discriminate.
  - destruct msgs as [|m0 rest]; simpl; [discriminate|].
    destruct (py_iter _); simpl; [|discriminate].
    rewrite deliver_returns. simpl.
    destruct (bool_decide _); simpl; discriminate.
Qed.

(** C2.  The continuous forwarder accepts an instant exactly when the hour
    of that instant in the configured zone lies in [start_hour, end_hour).
    The cron-driven forwarder, which reads the hour in UTC and has the
    enable flag, lets the cycle pass exactly when the flag is off or the
    hour lies in [start_hour, end_hour), and returns early otherwise.
    The hour equal to the start of a non-empty window is accepted, the hour
    equal to its end is not. *)
Theorem admission_window (s : Settings) (clock : Z)
    (cfg : gmap string value) (d : datetime) (lo hi : Z)
    (cm : ConfigManager) (w : World) :
  (_in_allowed_window s clock = true <->
     start_hour s <= hour (now (timezone s) clock) < end_hour s) /\
  (hour (now (timezone s) clock) = start_hour s -> start_hour s < end_hour s ->
     _in_allowed_window s clock = true) /\
  (hour (now (timezone s) clock) = end_hour s ->
     _in_allowed_window s clock = false) /\
  (cr_outcome (forward_messages_async cm w) = SkippedWindow <->
     window_open (config cm) (now utc (w_clock w)) = Some false) /\
  (truthy (cfg_get cfg "time_interval_enabled" (VBool true)) = false ->
     window_open cfg d = Some true) /\
  (truthy (cfg_get cfg "time_interval_enabled" (VBool true)) = true ->
   as_int (cfg_get cfg "start_hour" (VInt 8)) = Some lo ->
   as_int (cfg_get cfg "end_hour" (VInt 22)) = Some hi ->
     (window_open cfg d = Some true <-> lo <= hour d < hi) /\
     (window_open cfg d = Some false <-> ~ (lo <= hour d < hi)) /\
     (hour d = lo -> lo < hi -> window_open cfg d = Some true) /\
     (hour d = hi -> window_open cfg d = Some false)).
Proof.
  split; [apply in_allowed_window_spec|].
  split; [intros Hs Hlt; apply in_allowed_window_spec; lia|].
  split.
  { intros He. destruct (_in_allowed_window s clock) eqn:E; [|reflexivity].
    apply in_allowed_window_spec in E. lia. }
  split; [apply cycle_skipped_iff|].
  split; [intros Hoff; unfold window_open; now rewrite Hoff|].
  intros Hen Hlo Hhi. rewrite (window_open_enabled cfg d lo hi Hen Hlo Hhi).
  destruct (lo <=? hour d) eqn:E1, (hour d <? hi) eqn:E2; simpl;
    repeat split; intros; try congruence; try lia; try (exfalso; lia).
Qed.

(** ** Watermark *)

Lemma cycle_watermark_step (cm : ConfigManager) (w : World) (a : Z) :
  saved cm = config cm ->
  get_last_forwarded_id cm = Some a ->
  exists b,
    get_last_forwarded_id (cr_store (forward_messages_async cm w)) = Some b /\
    persisted_last_id (cr_store (forward_messages_async cm w)) = Some b /\
    saved (cr_store (forward_messages_async cm w)) =
      config (cr_store (forward_messages_async cm w)) /\
    a <= b.
Proof.
  intros Hsync Ha.
  destruct (cycle_store cm w) as [->|(last & m & Hlast & Hlt & _ & _ & ->)].
  - exists a. unfold persisted_last_id. rewrite Hsync. repeat split; auto; lia.
  - exists m. destruct (get_after_set cm m) as (H1 & H2 & H3).
    rewrite Ha in Hlast. injection Hlast as <-. repeat split; auto; lia.
Qed.

(** C5.  Started from a store whose file and memory agree and whose
    watermark reads [a], any sequence of cycles leaves after each cycle a
    persisted watermark, and the sequence [a], then the watermark after
    the first cycle, after the second, ... never decreases. *)
Theorem watermark_monotone (ws : list World) :
  forall (cm : ConfigManager) (a : Z),
  saved cm = config cm ->
  get_last_forwarded_id cm = Some a ->
  exists bs,
    map (fun r => persisted_last_id (cr_store r)) (run_cycles cm ws)
      = map Some bs /\
    StronglySorted Z.le (a :: bs).
Proof.
  induction ws as [|w ws IH]; intros cm a Hsync Ha.
  - exists []. split; [reflexivity|]. repeat constructor.
  - destruct (cycle_watermark_step cm w a Hsync Ha) as (b & Hb & Hp & Hs & Hle).
    destruct (IH _ b Hs Hb) as (bs & Hbs & Hsorted).
    exists (b :: bs). split.
    + simpl. rewrite Hp, Hbs. reflexivity.
    + apply StronglySorted_inv in Hsorted as [Hs1 Hs2].
      constructor; [now constructor|].
      constructor; [exact Hle|].
      eapply Forall_impl; [exact Hs2|]. simpl. intros. lia.
Qed.

(** ** Source unavailable *)

(** C7.  When the source entity cannot be found, the cycle leaves the
    store exactly as it was, resolves nothing, and its trace has no fetch,
    no send and no watermark update; inside the time window it ends right
    after the failed lookup and its log line.  The next cycle therefore
    starts from the same store. *)
Theorem source_unavailable_aborts (cm : ConfigManager) (w : World)
    (ws : list World) :
  w_entity w (cfg_get (config cm) "source_channel" (VStr "@somechannel")) = false ->
  cr_store (forward_messages_async cm w) = cm /\
  cr_resolved (forward_messages_async cm w) = [] /\
  forallb (fun ev => negb (touches_feed ev))
    (cr_trace (forward_messages_async cm w)) = true /\
  (window_open (config cm) (now utc (w_clock w)) = Some true ->
     cr_outcome (forward_messages_async cm w) = SourceUnavailable /\
     cr_trace (forward_messages_async cm w) =
       [EvGetEntity (cfg_get (config cm) "source_channel" (VStr "@somechannel")) false;
        EvLogError (cfg_get (config cm) "source_channel" (VStr "@somechannel"))]) /\
  run_cycles cm (w :: ws) = forward_messages_async cm w :: run_cycles cm ws.
Proof.
  intros Hsrc.
  assert (Hstore : cr_store (forward_messages_async cm w) = cm).
  { unfold forward_messages_async.
    destruct (window_open _ _) as [[|]|]; try reflexivity.
    rewrite Hsrc. reflexivity. }
  split; [exact Hstore|]. split; [|split; [|split]].
  - unfold forward_messages_async.
    destruct (window_open _ _) as [[|]|]; try reflexivity.
    rewrite Hsrc. reflexivity.
  - unfold forward_messages_async.
    destruct (window_open _ _) as [[|]|]; try reflexivity.
    rewrite Hsrc. reflexivity.
  - intros Hwin. unfold forward_messages_async. rewrite Hwin, Hsrc.
    split; reflexivity.
  - simpl. rewrite Hstore. reflexivity.
Qed.

(** ** Incremental resolution *)

Lemma strongly_sorted_weaken {A} (R S : A -> A -> Prop) (l : list A) :
  (forall a b, R a b -> S a b) -> StronglySorted R l -> StronglySorted S l.
Proof.
  intros HRS. induction 1 as [|x l Hs IH Hall]; constructor; [exact IH|].
  eapply Forall_impl; [exact Hall|]. intros. now apply HRS.
Qed.

Lemma max_id_in (msgs : list RawMessage) (z : Z) :
  max_id msgs = Some z -> exists x, In x msgs /\ id x = z.
Proof.
  destruct msgs as [|m0 rest]; [discriminate|].
  simpl. intros [= <-].
  revert m0. induction rest as [|y rest IH]; intros m0; simpl.
  - exists m0. auto.
  - destruct (Z.max_spec (id m0) (id y)) as [[_ ->]|[_ ->]].
    + destruct (IH y) as (x & [Hx|Hx] & Hid); exists x; simpl; auto.
    + destruct (IH m0) as (x & [Hx|Hx] & Hid); exists x; simpl; auto.
Qed.

(** C4.  With the watermark at 42 and a source holding the ids 50, 44,
    43, 41 and 40 (newest first), a cycle in "new" mode resolves exactly
    the messages 43, 44 and 50, ordered by ascending date (in the order
    43, 44, 50 when dates grow with ids), completes, and leaves 50 as the
    persisted watermark. *)
Theorem incremental_resolution_example (cm : ConfigManager) (w : World)
    (sgs : list string) (m40 m41 m43 m44 m50 : RawMessage) :
  window_open (config cm) (now utc (w_clock w)) = Some true ->
  w_entity w (cfg_get (config cm) "source_channel" (VStr "@somechannel")) = true ->
  cfg_get (config cm) "forward_mode" (VStr "new") = VStr "new" ->
  get_last_forwarded_id cm = Some 42 ->
  py_iter (cfg_get (config cm) "supergroups" (VList [])) = Some sgs ->
  id m40 = 40 -> id m41 = 41 -> id m43 = 43 -> id m44 = 44 -> id m50 = 50 ->
  w_feed w = [m50; m44; m43; m41; m40] ->
  Permutation (cr_resolved (forward_messages_async cm w)) [m43; m44; m50] /\
  StronglySorted (fun a b => date a <= date b)
    (cr_resolved (forward_messages_async cm w)) /\
  (date m43 < date m44 < date m50 ->
     cr_resolved (forward_messages_async cm w) = [m43; m44; m50]) /\
  cr_outcome (forward_messages_async cm w) = Completed /\
  persisted_last_id (cr_store (forward_messages_async cm w)) = Some 50.
Proof.
  intros Hwin Hsrc Hmode Hlast Hsgs H40 H41 H43 H44 H50 Hfeed.
  assert (Hfetch : get_messages (w_feed w) 100 0 42 = [m50; m44; m43]).
  { rewrite Hfeed. unfold get_messages. simpl.
    rewrite H40, H41, H43, H44, H50. reflexivity. }
  assert (Hne : fetch_new w 42 <> []).
  { unfold fetch_new. rewrite Hfetch. intros H.
    apply sort_by_nil_inv in H. discriminate. }
  destruct (cycle_incremental cm w 42 sgs Hwin Hsrc Hmode Hlast Hsgs Hne)
    as (m & Hm & ->). simpl.
  assert (Hperm : Permutation (fetch_new w 42) [m43; m44; m50]).
  { unfold fetch_new. rewrite Hfetch, sort_by_perm.
    change [m50; m44; m43] with (rev [m43; m44; m50]).
    symmetry. apply Permutation_rev. }
  split; [exact Hperm|]. split; [|split; [|split]].
  - unfold fetch_new.
    eapply strongly_sorted_weaken; [|apply sort_by_sorted].
    intros a b. unfold timestamp, m_date. simpl. lia.
  - intros [Hd1 Hd2]. unfold fetch_new. rewrite Hfetch. simpl.
    unfold timestamp, m_date. simpl.
    destruct (date m44 - 0 <=? date m43 - 0) eqn:E1; [lia|]. simpl.
    destruct (date m50 - 0 <=? date m43 - 0) eqn:E2; [lia|].
    destruct (date m50 - 0 <=? date m44 - 0) eqn:E3; [lia|]. reflexivity.
  - reflexivity.
  - destruct (get_after_set cm m) as (_ & -> & _). f_equal.
    assert (Hle : forall x, In x (fetch_new w 42) -> id x <= m)
      by (apply max_id_ge; exact Hm).
    assert (H50in : In m50 (fetch_new w 42)).
    { apply (Permutation_in _ (Permutation_sym Hperm)). simpl. tauto. }
    destruct (max_id_in _ _ Hm) as (x & Hx & Hid).
    apply (Permutation_in _ Hperm) in Hx. specialize (Hle m50 H50in).
    simpl in Hx. destruct Hx as [<-|[<-|[<-|[]]]]; lia.
Qed.

(** ** Isolation of a failing destination *)

Lemma deliver_dest_ok (w : World) (order : value) (msgs : list RawMessage)
    (sg : string) :
  w_entity w (VStr sg) = true ->
  (forall ms, w_send w sg ms = SendOk) ->
  delivered_to sg
    (fst (try_except (deliver_body w order msgs sg)
            (fun _ => emit (EvLogError (VStr sg))))) = map id msgs.
Proof.
  intros He Hs.
  destruct (deliver_body_ok w order msgs sg He Hs) as (tr & -> & Htr).
  exact Htr.
Qed.

(** A destination that is listed once, resolves and accepts every send
    receives the whole message set, whatever the other destinations do. *)
Lemma deliver_reaches (w : World) (order : value) (msgs : list RawMessage)
    (sgs : list string) (dest : string) :
  NoDup sgs -> In dest sgs ->
  w_entity w (VStr dest) = true ->
  (forall ms, w_send w dest ms = SendOk) ->
  delivered_to dest (trace_of (deliver w order msgs sgs)) = map id msgs.
Proof.
  intros Hnd Hin He Hs. rewrite deliver_returns. unfold trace_of. simpl.
  assert (Hnone : forall l, ~ In dest l ->
    delivered_to dest (concat (map (fun sg =>
      fst (try_except (deliver_body w order msgs sg)
             (fun _ => emit (EvLogError (VStr sg))))) l)) = []).
  { induction l as [|x l IH]; intros Hx; simpl; [reflexivity|].
    rewrite delivered_to_app, deliver_body_other, IH; simpl; auto.
    - intros H. apply Hx. now right.
    - intros ->. apply Hx. now left. }
  induction sgs as [|sg sgs IH]; [destruct Hin|].
  apply NoDup_cons in Hnd as [Hnotin Hnd].
  simpl. rewrite delivered_to_app. destruct Hin as [->|Hin].
  - rewrite deliver_dest_ok, Hnone by (auto; now rewrite <- list_elem_of_In).
    apply app_nil_r.
  - rewrite deliver_body_other, IH; auto.
    intros ->. apply Hnotin. now apply list_elem_of_In.
Qed.

(** A destination whose entity cannot be found gets an error log line and
    no message. *)
Lemma deliver_logs_failure (w : World) (order : value)
    (msgs : list RawMessage) (sgs : list string) (dest : string) :
  In dest sgs -> w_entity w (VStr dest) = false ->
  In (EvLogError (VStr dest)) (trace_of (deliver w order msgs sgs)).
Proof.
  intros Hin He. rewrite deliver_returns. unfold trace_of. simpl.
  apply in_concat. eexists. split; [apply in_map; exact Hin|].
  unfold deliver_body, get_entity. rewrite He. simpl. tauto.
Qed.

Lemma forward_text_reaches send (targets : list string) msg r delay tg :
  raw msg = Some r -> NoDup targets -> In tg targets ->
  send tg r = SendOk ->
  delivered_to tg (trace_of (forward_text send targets msg delay)) = [id r].
Proof.
  intros Hr Hnd Hin Hs. rewrite (forward_text_trace _ _ _ r) by assumption.
  unfold trace_of. simpl.
  assert (Hother : forall x, x <> tg ->
            delivered_to tg (target_trace send r delay x) = []).
  { intros x Hx. unfold target_trace. destruct (send x r); simpl; auto.
    now rewrite bool_decide_eq_false_2. }
  assert (Hnone : forall l, ~ In tg l ->
            delivered_to tg (concat (map (target_trace send r delay) l)) = []).
  { induction l as [|x l IH]; intros Hx; simpl; [reflexivity|].
    rewrite delivered_to_app, Hother, IH; simpl; auto.
    - intros H. apply Hx. now right.
    - intros ->. apply Hx. now left. }
  induction targets as [|x l IH]; [destruct Hin|].
  apply NoDup_cons in Hnd as [Hnotin Hnd]. simpl. rewrite delivered_to_app.
  destruct Hin as [->|Hin].
  - rewrite Hnone by now rewrite <- list_elem_of_In.
    unfold target_trace. rewrite Hs. simpl.
    now rewrite bool_decide_eq_true_2.
  - rewrite Hother, IH; auto.
    intros ->. apply Hnotin. now apply list_elem_of_In.
Qed.

(** C6.  Destinations [a], [b], [c], pairwise distinct; [a] and [c]
    resolve and accept every send, [b] may fail in any way.  A cycle in
    "new" mode that has messages to forward completes without an
    exception, [a] and [c] each receive every message of the resolved set,
    in order, a failed lookup of [b] is only logged, and the persisted
    watermark becomes the largest id of the resolved set.  In the
    continuous forwarder, [forward_text] to the same three targets returns
    normally and delivers the message to [a] and to [c]. *)
Theorem partial_failure_isolated (cm : ConfigManager) (w : World) (last : Z)
    (a b c : string)
    (send : string -> RawMessage -> send_result) (msg : TextMessage)
    (r : RawMessage) (delay : Z) :
  window_open (config cm) (now utc (w_clock w)) = Some true ->
  w_entity w (cfg_get (config cm) "source_channel" (VStr "@somechannel")) = true ->
  cfg_get (config cm) "forward_mode" (VStr "new") = VStr "new" ->
  get_last_forwarded_id cm = Some last ->
  py_iter (cfg_get (config cm) "supergroups" (VList [])) = Some [a; b; c] ->
  fetch_new w last <> [] ->
  a <> b -> a <> c -> b <> c ->
  w_entity w (VStr a) = true -> (forall ms, w_send w a ms = SendOk) ->
  w_entity w (VStr c) = true -> (forall ms, w_send w c ms = SendOk) ->
  raw msg = Some r -> send a r = SendOk -> send c r = SendOk ->
  (cr_outcome (forward_messages_async cm w) = Completed /\
   cr_resolved (forward_messages_async cm w) = fetch_new w last /\
   delivered_to a (cr_trace (forward_messages_async cm w)) =
     map id (cr_resolved (forward_messages_async cm w)) /\
   delivered_to c (cr_trace (forward_messages_async cm w)) =
     map id (cr_resolved (forward_messages_async cm w)) /\
   (w_entity w (VStr b) = false ->
      In (EvLogError (VStr b)) (cr_trace (forward_messages_async cm w)) /\
      delivered_to b (cr_trace (forward_messages_async cm w)) = []) /\
   exists m, max_id (cr_resolved (forward_messages_async cm w)) = Some m /\
             persisted_last_id (cr_store (forward_messages_async cm w)) = Some m) /\
  (snd (forward_text send [a; b; c] msg delay) = inr tt /\
   delivered_to a (trace_of (forward_text send [a; b; c] msg delay)) = [id r] /\
   delivered_to c (trace_of (forward_text send [a; b; c] msg delay)) = [id r]).
Proof.
  intros Hwin Hsrc Hmode Hlast Hsgs Hne Hab Hac Hbc Hea Hsa Hec Hsc Hr Hfa Hfc.
  assert (Hnd : NoDup [a; b; c]).
  { repeat constructor; rewrite ?list_elem_of_In; simpl; intuition congruence. }
  split.
  - destruct (cycle_incremental cm w last [a; b; c] Hwin Hsrc Hmode Hlast Hsgs Hne)
      as (m & Hm & ->). simpl.
    split; [reflexivity|]. split; [reflexivity|].
    rewrite !delivered_to_app. simpl. rewrite !app_nil_r.
    rewrite !deliver_reaches by (simpl; auto).
    split; [reflexivity|]. split; [reflexivity|]. split.
    + intros Heb. split.
      * right. right. apply in_or_app. left.
        apply deliver_logs_failure; simpl; auto.
      * rewrite deliver_returns. unfold trace_of. simpl.
        rewrite !delivered_to_app.
        rewrite (deliver_body_other w _ _ a b), (deliver_body_other w _ _ c b)
          by congruence.
        unfold deliver_body, get_entity. rewrite Heb. reflexivity.
    + exists m. split; [exact Hm|]. apply get_after_set.
  - split; [apply forward_text_returns|].
    split; apply forward_text_reaches; simpl; auto.
Qed.

(** ** The page size of the incremental fetch *)

Lemma get_messages_above (feed : list RawMessage) (n : nat) (last : Z) :
  get_messages feed n 0 last = take n (above feed last).
Proof.
  reflexivity.
Qed.

Lemma newest_first_filter (f : RawMessage -> bool) (feed : list RawMessage) :
  StronglySorted (fun x y => id y < id x) feed ->
  StronglySorted (fun x y => id y < id x) (List.filter f feed).
Proof.
  induction 1 as [|x l Hs IH Hall]; simpl; [constructor|].
  destruct (f x); [|exact IH]. constructor; [exact IH|].
  rewrite List.Forall_forall in *. intros y Hy.
  apply filter_In in Hy as [Hy _]. now apply Hall.
Qed.

(** In a newest-first list, whatever lies beyond the first [n] entries is
    older than each of them. *)
Lemma newest_first_split (n : nat) :
  forall (l : list RawMessage) (x y : RawMessage),
  StronglySorted (fun x y => id y < id x) l ->
  In x (take n l) -> In y (drop n l) -> id y < id x.
Proof.
  induction n as [|n IH]; intros l x y Hs Hx Hy; [destruct Hx|].
  destruct l as [|h l]; [destruct Hx|].
  apply StronglySorted_inv in Hs as [Hs Hall]. simpl in Hx, Hy.
  destruct Hx as [<-|Hx].
  - rewrite List.Forall_forall in Hall. apply Hall.
    apply list_elem_of_In. apply (subseteq_drop n l). apply list_elem_of_In. exact Hy.
  - eapply IH; eauto.
Qed.

(** Cycles that follow each other in "new" mode resolve only ids above the
    watermark the first of them starts from. *)
Lemma later_cycles_above (ws : list World) :
  forall (cm : ConfigManager) (wm : Z),
  cfg_get (config cm) "forward_mode" (VStr "new") = VStr "new" ->
  get_last_forwarded_id cm = Some wm ->
  Forall (fun r => forall m, In m (cr_resolved r) -> wm < id m)
         (run_cycles cm ws).
Proof.
  induction ws as [|w ws IH]; intros cm wm Hmode Hwm; simpl; constructor.
  - now apply cycle_resolved_above.
  - destruct (cycle_store cm w) as [->|(last & m & Hlast & Hlt & _ & _ & ->)].
    + now apply IH.
    + rewrite Hwm in Hlast. injection Hlast as <-.
      eapply Forall_impl.
      * apply (IH _ m); [|apply get_after_set].
        rewrite cfg_get_after_set by discriminate. exact Hmode.
      * simpl. intros r Hr x Hx. specialize (Hr x Hx). lia.
Qed.

(** C10.  A cycle in "new" mode on a newest-first source resolves at most
    100 messages.  A message above the watermark that lies beyond the
    newest 100 such messages is not resolved by this cycle, the watermark
    the cycle persists is larger than its id, and no later cycle resolves
    that id either. *)
Theorem fetch_cap_skips_older (cm : ConfigManager) (w : World) (last : Z)
    (sgs : list string) (skipped : RawMessage) (ws : list World) :
  window_open (config cm) (now utc (w_clock w)) = Some true ->
  w_entity w (cfg_get (config cm) "source_channel" (VStr "@somechannel")) = true ->
  cfg_get (config cm) "forward_mode" (VStr "new") = VStr "new" ->
  get_last_forwarded_id cm = Some last ->
  py_iter (cfg_get (config cm) "supergroups" (VList [])) = Some sgs ->
  StronglySorted (fun x y => id y < id x) (w_feed w) ->
  In skipped (drop 100 (above (w_feed w) last)) ->
  (length (cr_resolved (forward_messages_async cm w)) <= 100)%nat /\
  Permutation (cr_resolved (forward_messages_async cm w))
              (take 100 (above (w_feed w) last)) /\
  ~ In (id skipped) (map id (cr_resolved (forward_messages_async cm w))) /\
  (exists m,
     max_id (cr_resolved (forward_messages_async cm w)) = Some m /\
     persisted_last_id (cr_store (forward_messages_async cm w)) = Some m /\
     id skipped < m) /\
  Forall (fun r => ~ In (id skipped) (map id (cr_resolved r)))
         (run_cycles (cr_store (forward_messages_async cm w)) ws).
Proof.
  intros Hwin Hsrc Hmode Hlast Hsgs Hsorted Hskip.
  assert (Hperm : Permutation (fetch_new w last) (take 100 (above (w_feed w) last))).
  { unfold fetch_new. rewrite get_messages_above. apply sort_by_perm. }
  assert (Hold : forall x, In x (fetch_new w last) -> id skipped < id x).
  { intros x Hx. apply (Permutation_in _ Hperm) in Hx.
    apply (newest_first_split 100 (above (w_feed w) last)); auto.
    now apply newest_first_filter. }
  assert (Hne : fetch_new w last <> []).
  { intros Hnil. rewrite Hnil in Hperm. apply Permutation_nil in Hperm.
    destruct (above (w_feed w) last) as [|h l]; [destruct Hskip|discriminate]. }
  destruct (cycle_incremental cm w last sgs Hwin Hsrc Hmode Hlast Hsgs Hne)
    as (m & Hm & ->). simpl.
  assert (Hlt : id skipped < m).
  { destruct (max_id_in _ _ Hm) as (x & Hx & <-). now apply Hold. }
  split; [|split; [exact Hperm|split; [|split]]].
  - rewrite (Permutation_length Hperm), length_take. lia.
  - intros Hin. apply in_map_iff in Hin as (x & Hid & Hx).
    specialize (Hold x Hx). lia.
  - exists m. split; [exact Hm|]. split; [apply get_after_set|exact Hlt].
  - eapply Forall_impl.
    + apply (later_cycles_above ws _ m); [|apply get_after_set].
      rewrite cfg_get_after_set by discriminate. exact Hmode.
    + simpl. intros r Hr Hin. apply in_map_iff in Hin as (x & Hid & Hx).
      specialize (Hr x Hx). lia.
Qed.

(** ** Full-day resolution *)

Lemma scan_chunk_plain (day_start : datetime) (chunk : list RawMessage) :
  Forall (fun tm => exists m, In m chunk /\ raw tm = Some m /\
                              is_plain_text m = true)
         (Gateway.scan_chunk day_start chunk).
Proof.
  induction chunk as [|m rest IH]; simpl; [constructor|].
  destruct (before_day_start day_start m); [constructor|].
  apply Forall_app. split.
  - destruct (is_plain_text m) eqn:E; repeat constructor.
    exists m. simpl. auto.
  - eapply Forall_impl; [exact IH|]. simpl.
    intros tm (x & Hx & Hr & Hp). exists x. auto.
Qed.

Lemma fetch_loop_plain (feed : list RawMessage) (day_start : datetime) :
  forall fuel offset msgs res,
  Forall (fun tm => exists m, In m feed /\ raw tm = Some m /\
                              is_plain_text m = true) msgs ->
  fetch_loop fuel feed day_start offset msgs = Some res ->
  Forall (fun tm => exists m, In m feed /\ raw tm = Some m /\
                              is_plain_text m = true) res.
Proof.
  induction fuel as [|fuel IH]; intros offset msgs res Hmsgs; simpl;
    [discriminate|].
  destruct (List.last _ None) as [oldest|]; [|now intros [= <-]].
  assert (Hacc : Forall (fun tm => exists m, In m feed /\ raw tm = Some m /\
                                             is_plain_text m = true)
                   (msgs ++ Gateway.scan_chunk day_start
                              (get_messages feed 100 offset 0))).
  { apply Forall_app. split; [exact Hmsgs|].
    eapply Forall_impl; [apply scan_chunk_plain|]. simpl.
    intros tm (x & Hx & Hr & Hp). exists x.
    apply get_messages_in in Hx. tauto. }
  destruct (before_day_start day_start oldest); [now intros [= <-]|].
  now apply IH.
Qed.

(** Every message [fetch_today_texts] returns wraps a message of the feed
    that has text and no media. *)
Lemma fetch_today_texts_plain (feed : list RawMessage) (tz : zone) (clock : Z)
    (msgs : list TextMessage) :
  fetch_today_texts feed tz clock = Some msgs ->
  Forall (fun tm => exists m, In m feed /\ raw tm = Some m /\
                              is_plain_text m = true) msgs.
Proof.
  unfold fetch_today_texts.
  destruct (fetch_loop _ _ _ _ _) as [res|] eqn:E; [|discriminate].
  intros [= <-]. apply Forall_rev.
  eapply fetch_loop_plain; [|exact E]. constructor.
Qed.

(** C3, on the code.  In the zone UTC+03:30, at noon of the sample day,
    the feed holds text messages stamped 23:50 of the previous day, 00:01
    and 10:00 of the sample day (zone time).  [fetch_today_texts] returns
    the 10:00 message alone: the 00:01 message, posted after local
    midnight, is compared by its UTC wall clock (20:31 of the previous
    day) with the wall clock of local midnight and dropped.  The same
    three wall clocks read in UTC give the 00:01 and 10:00 messages, in
    that order.  The cron-driven [fetch_all_today_messages] compares
    instants but has no text filter: it returns a photo without caption. *)
Theorem full_day_resolution_sample :
  wall (now tehran (date msg_2350)) = wall (start_of_today tehran sample_noon) - 600 /\
  wall (now tehran (date msg_0001)) = wall (start_of_today tehran sample_noon) + 60 /\
  wall (now tehran (date msg_1000)) = wall (start_of_today tehran sample_noon) + 36000 /\
  fetch_today_texts sample_feed tehran sample_noon = Some [to_text msg_1000] /\
  fetch_today_texts
    [mk_raw 3 (sample_midnight + 36000) "morning" None;
     mk_raw 2 (sample_midnight + 60) "early" None;
     mk_raw 1 (sample_midnight - 600) "late" None]
    utc (sample_midnight + 43200)
  = Some [to_text (mk_raw 2 (sample_midnight + 60) "early" None);
          to_text (mk_raw 3 (sample_midnight + 36000) "morning" None)] /\
  option_map snd
    (fetch_all_today_messages
       [mk_raw 4 (sample_midnight + 39600) "" (Some "photo");
        mk_raw 2 (sample_midnight + 60) "early" None]
       (sample_midnight + 43200))
  = Some [mk_raw 2 (sample_midnight + 60) "early" None;
          mk_raw 4 (sample_midnight + 39600) "" (Some "photo")].
Proof. repeat split; vm_compute; reflexivity. Qed.

(** ** The continuous loop *)

Import UseCases.

Lemma sweep_from_zero {A} (l : list A) :
  l <> [] ->
  exists ys, round_robin l 0 = Some ys /\
             map fst ys = map Z.of_nat (seq 0 (length l)).
Proof.
  intros Hne.
  assert (Hlen : 0 < Z.of_nat (length l)) by (destruct l; [congruence|simpl; lia]).
  destruct (round_robin_sweep l 0) as (ys & Hr & _ & Hi); [lia|].
  exists ys. split; [exact Hr|]. rewrite Hi.
  apply map_ext_in. intros k Hk. apply in_seq in Hk.
  rewrite Z.add_0_l. apply Z.mod_small. lia.
Qed.

(** C9, as the code has it.  Every pass of [run_forever] inside the window fetches
    the day's messages again, whatever set and cursor it starts with: the
    set it leaves is the one just fetched, the pass does not depend on the
    state before it, and when there are targets and messages the sweep
    starts at index 0 and visits every index once. *)
Theorem refresh_every_pass_in_window (s : Settings) (e : Env) (st : State) :
  _in_allowed_window s (e_clock_window e) = true ->
  exists msgs,
    fetch_today_texts (e_feed e) (timezone s) (e_clock_fetch e) = Some msgs /\
    st_messages (p_state (iteration s e st)) = msgs /\
    (forall st', iteration s e st' = iteration s e st) /\
    (_load_targets s e <> [] -> msgs <> [] ->
       exists ys,
         round_robin msgs 0 = Some ys /\
         map fst ys = map Z.of_nat (seq 0 (length msgs)) /\
         p_control (iteration s e st) = Continue /\
         p_trace (iteration s e st) =
           trace_of (for_each ys (sweep_body s e (_load_targets s e)))).
Proof.
  intros Hadm.
  destruct (fetch_today_texts_total (e_feed e) (timezone s) (e_clock_fetch e))
    as [msgs Hf].
  exists msgs. split; [exact Hf|].
  unfold iteration, _refresh_messages. rewrite Hadm, Hf. simpl.
  split; [|split].
  - destruct (_load_targets s e); [reflexivity|].
    destruct msgs; [reflexivity|].
    destruct (round_robin _ _); reflexivity.
  - intros st'. reflexivity.
  - intros Ht Hm. destruct (sweep_from_zero msgs Hm) as (ys & Hr & Hi).
    exists ys. split; [exact Hr|]. split; [exact Hi|].
    destruct (_load_targets s e) as [|t ts]; [congruence|].
    destruct msgs as [|m0 rest]; [congruence|].
    rewrite Hr. split; reflexivity.
Qed.

(** Two passes of [run_forever] on the sample day: the second works on the
    set fetched anew, sweeping it from index 0. *)
Lemma run_forever_sample :
  map (fun p => (map message_id (st_messages (p_state p)), st_idx (p_state p)))
      (run_forever sample_settings [pass_one; pass_two] initial)
  = [([1], 0); ([1; 2], 1)].
Proof. vm_compute. reflexivity. Qed.

(** C9 as stated fails: two passes inside the window on the same calendar day, the
    first leaving a non-empty set; the second pass replaces the set with
    the newly fetched one. *)
Lemma refresh_only_when_needed_fails :
  ~ (forall (s : Settings) (e0 e : Env) (st0 : State),
       _in_allowed_window s (e_clock_window e0) = true ->
       _in_allowed_window s (e_clock_window e) = true ->
       local_day (timezone s) (e_clock_fetch e0) =
         local_day (timezone s) (e_clock_window e) ->
       st_messages (p_state (iteration s e0 st0)) <> [] ->
       st_messages (p_state (iteration s e (p_state (iteration s e0 st0)))) =
       st_messages (p_state (iteration s e0 st0))).
Proof.
  intros H.
  specialize (H sample_settings pass_one pass_two initial).
  assert (Hlen : length (st_messages (p_state
            (iteration sample_settings pass_two
               (p_state (iteration sample_settings pass_one initial))))) =
          length (st_messages (p_state
            (iteration sample_settings pass_one initial)))).
  { f_equal. apply H; vm_compute; congruence. }
  vm_compute in Hlen. discriminate.
Qed.

(** ** The statements at sample inputs *)

Lemma admission_window_witness :
  _in_allowed_window window_settings (at_tehran (sample_midnight + 8 * 3600)) = true /\
  _in_allowed_window window_settings (at_tehran (sample_midnight + 22 * 3600)) = false /\
  window_open (sample_config 0 false []) (now utc (sample_midnight + 3 * 3600)) = Some true /\
  window_open (sample_config 0 true []) (now utc (sample_midnight + 8 * 3600)) = Some true /\
  window_open (sample_config 0 true []) (now utc (sample_midnight + 22 * 3600)) = Some false.
Proof.
  split; [|split; [|split; [|split]]].
  - destruct (admission_window window_settings
                (at_tehran (sample_midnight + 8 * 3600))
                (sample_config 0 true []) (now utc 0) 8 22
                (sample_store 0 []) (sample_world []))
      as (_ & Hstart & _).
    apply Hstart; vm_compute; reflexivity.
  - destruct (admission_window window_settings
                (at_tehran (sample_midnight + 22 * 3600))
                (sample_config 0 true []) (now utc 0) 8 22
                (sample_store 0 []) (sample_world []))
      as (_ & _ & Hend & _).
    apply Hend; vm_compute; reflexivity.
  - destruct (admission_window window_settings 0 (sample_config 0 false [])
                (now utc (sample_midnight + 3 * 3600)) 8 22
                (sample_store 0 []) (sample_world []))
      as (_ & _ & _ & _ & Hoff & _).
    apply Hoff; vm_compute; reflexivity.
  - destruct (admission_window window_settings 0 (sample_config 0 true [])
                (now utc (sample_midnight + 8 * 3600)) 8 22
                (sample_store 0 []) (sample_world []))
      as (_ & _ & _ & _ & _ & Hon).
    destruct Hon as (_ & _ & Hstart & _); [vm_compute; reflexivity ..|].
    apply Hstart; vm_compute; reflexivity.
  - destruct (admission_window window_settings 0 (sample_config 0 true [])
                (now utc (sample_midnight + 22 * 3600)) 8 22
                (sample_store 0 []) (sample_world []))
      as (_ & _ & _ & _ & _ & Hon).
    destruct Hon as (_ & _ & _ & Hend); [vm_compute; reflexivity ..|].
    apply Hend; vm_compute; reflexivity.
Defined.

Lemma incremental_resolution_example_witness :
  Permutation
    (cr_resolved (forward_messages_async (sample_store 42 ["@g1"])
       (sample_world [text_msg 50; text_msg 44; text_msg 43; text_msg 41; text_msg 40])))
    [text_msg 43; text_msg 44; text_msg 50] /\
  StronglySorted (fun a b => date a <= date b)
    (cr_resolved (forward_messages_async (sample_store 42 ["@g1"])
       (sample_world [text_msg 50; text_msg 44; text_msg 43; text_msg 41; text_msg 40]))) /\
  (date (text_msg 43) < date (text_msg 44) < date (text_msg 50) ->
     cr_resolved (forward_messages_async (sample_store 42 ["@g1"])
       (sample_world [text_msg 50; text_msg 44; text_msg 43; text_msg 41; text_msg 40]))
     = [text_msg 43; text_msg 44; text_msg 50]) /\
  cr_outcome (forward_messages_async (sample_store 42 ["@g1"])
       (sample_world [text_msg 50; text_msg 44; text_msg 43; text_msg 41; text_msg 40]))
    = Completed /\
  persisted_last_id (cr_store (forward_messages_async (sample_store 42 ["@g1"])
       (sample_world [text_msg 50; text_msg 44; text_msg 43; text_msg 41; text_msg 40])))
    = Some 50.
Proof.
  apply (incremental_resolution_example (sample_store 42 ["@g1"])
           (sample_world [text_msg 50; text_msg 44; text_msg 43; text_msg 41; text_msg 40])
           ["@g1"] (text_msg 40) (text_msg 41) (text_msg 43) (text_msg 44) (text_msg 50));
    vm_compute; reflexivity.
Defined.

Lemma watermark_monotone_witness :
  exists bs,
    map (fun r => persisted_last_id (cr_store r))
      (run_cycles (sample_store 0 ["@g1"])
         [sample_world (descending 3); sample_world []; sample_world (descending 5)])
      = map Some bs /\
    StronglySorted Z.le (0 :: bs).
Proof.
  apply (watermark_monotone
           [sample_world (descending 3); sample_world []; sample_world (descending 5)]
           (sample_store 0 ["@g1"]) 0); vm_compute; reflexivity.
Defined.

Lemma source_unavailable_aborts_witness :
  cr_store (forward_messages_async (sample_store 7 ["@g1"]) (lost_world (descending 9)))
    = sample_store 7 ["@g1"] /\
  cr_outcome (forward_messages_async (sample_store 7 ["@g1"]) (lost_world (descending 9)))
    = SourceUnavailable.
Proof.
  destruct (source_unavailable_aborts (sample_store 7 ["@g1"])
              (lost_world (descending 9)) [])
    as (Hstore & _ & _ & Hwin & _); [vm_compute; reflexivity|].
  split; [exact Hstore|]. apply Hwin. vm_compute; reflexivity.
Defined.

Lemma flood_wait_sleeps_and_continues_witness :
  forward_text flooded (["@a"] ++ "@b" :: ["@c"]) (to_text (text_msg 7)) 1 =
    (trace_of (forward_text flooded ["@a"] (to_text (text_msg 7)) 1)
       ++ [EvRejected "@b" [id (text_msg 7)]; EvSleep 30]
       ++ trace_of (forward_text flooded ["@c"] (to_text (text_msg 7)) 1), inr tt) /\
  attempts_to "@b"
    (trace_of (forward_text flooded (["@a"] ++ "@b" :: ["@c"]) (to_text (text_msg 7)) 1))
    = count_occ string_dec (["@a"] ++ "@b" :: ["@c"]) "@b" /\
  snd (for_each [(0, to_text (text_msg 7))]
         (sweep_body sample_settings pass_one ["@a"])) = inr tt.
Proof.
  apply (flood_wait_sleeps_and_continues flooded ["@a"] ["@c"] "@b"
           (to_text (text_msg 7)) (text_msg 7) 1 30
           sample_settings pass_one ["@a"] [(0, to_text (text_msg 7))]);
    vm_compute; reflexivity.
Defined.

Lemma refresh_every_pass_in_window_witness :
  exists msgs,
    fetch_today_texts (e_feed pass_two) (timezone sample_settings)
      (e_clock_fetch pass_two) = Some msgs /\
    st_messages (p_state (iteration sample_settings pass_two
       (p_state (iteration sample_settings pass_one initial)))) = msgs /\
    length msgs = 2%nat.
Proof.
  destruct (refresh_every_pass_in_window sample_settings pass_two
              (p_state (iteration sample_settings pass_one initial)))
    as (msgs & Hf & Hm & _); [vm_compute; reflexivity|].
  exists msgs. split; [exact Hf|]. split; [exact Hm|].
  rewrite <- Hm. vm_compute. reflexivity.
Defined.

Lemma partial_failure_isolated_witness :
  cr_outcome (forward_messages_async (sample_store 0 ["@a"; "@b"; "@c"])
                (sample_world (descending 3))) = Completed /\
  delivered_to "@a"
    (cr_trace (forward_messages_async (sample_store 0 ["@a"; "@b"; "@c"])
                 (sample_world (descending 3)))) = [1; 2; 3] /\
  delivered_to "@b"
    (cr_trace (forward_messages_async (sample_store 0 ["@a"; "@b"; "@c"])
                 (sample_world (descending 3)))) = [] /\
  delivered_to "@c"
    (cr_trace (forward_messages_async (sample_store 0 ["@a"; "@b"; "@c"])
                 (sample_world (descending 3)))) = [1; 2; 3] /\
  persisted_last_id
    (cr_store (forward_messages_async (sample_store 0 ["@a"; "@b"; "@c"])
                 (sample_world (descending 3)))) = Some 3.
Proof.
  destruct (partial_failure_isolated (sample_store 0 ["@a"; "@b"; "@c"])
              (sample_world (descending 3)) 0 "@a" "@b" "@c"
              flooded (to_text (text_msg 7)) (text_msg 7) 1)
    as ((Hout & Hres & Ha & Hc & Hb & m & Hm & Hp) & _);
    try (vm_compute; reflexivity); try discriminate.
  destruct Hb as [_ Hb]; [vm_compute; reflexivity|].
  rewrite Hres in Ha, Hc, Hm.
  split; [exact Hout|]. split; [exact Ha|]. split; [exact Hb|].
  split; [exact Hc|]. rewrite Hp, <- Hm. vm_compute. reflexivity.
Defined.

Lemma fetch_cap_skips_older_witness :
  (length (cr_resolved (forward_messages_async (sample_store 0 ["@g1"])
                          (sample_world (descending 101)))) <= 100)%nat /\
  ~ In 1 (map id (cr_resolved (forward_messages_async (sample_store 0 ["@g1"])
                                 (sample_world (descending 101))))) /\
  persisted_last_id (cr_store (forward_messages_async (sample_store 0 ["@g1"])
                                 (sample_world (descending 101)))) = Some 101 /\
  Forall (fun r => ~ In 1 (map id (cr_resolved r)))
    (run_cycles (cr_store (forward_messages_async (sample_store 0 ["@g1"])
                             (sample_world (descending 101))))
       [sample_world (descending 101); sample_world (descending 150)]).
Proof.
  destruct (fetch_cap_skips_older (sample_store 0 ["@g1"])
              (sample_world (descending 101)) 0 ["@g1"] (text_msg 1)
              [sample_world (descending 101); sample_world (descending 150)])
    as (Hlen & _ & Hnot & (m & Hm & Hp & _) & Hlater);
    try (vm_compute; reflexivity).
  - apply (bool_decide_eq_true_1 _
             (Decision0 := @StronglySorted_dec _ _
                     (fun x y : RawMessage => decide (id y < id x)) _)).
    vm_compute. reflexivity.
  - vm_compute. left. reflexivity.
  - split; [exact Hlen|]. split; [exact Hnot|]. split; [|exact Hlater].
    rewrite Hp, <- Hm. vm_compute. reflexivity.
Defined.

(* ===================================================================== *)
(** * Further properties of the code *)
(* ===================================================================== *)

Import Reading.

(** ** The round-robin generator *)

Lemma round_robin_loop_pairs {A} (l : list A) (len : Z) (n : nat) :
  forall i ys, round_robin_loop l len i n = Some ys ->
  Forall (fun y => py_getitem l (fst y) = Some (snd y)) ys.
Proof.
  induction n as [|n IH]; intros i ys; simpl.
  - intros [= <-]. constructor.
  - destruct (py_getitem l i) as [m|] eqn:Em; [|discriminate].
    destruct (round_robin_loop l len _ n) as [ys'|] eqn:Er; [|discriminate].
    simpl. intros [= <-]. constructor; [exact Em|]. eapply IH. exact Er.
Qed.

Lemma rotation_lookup {A} (l : list A) (p k : nat) :
  (p < length l)%nat -> (k < length l)%nat ->
  (drop p l ++ take p l) !! k =
  l !! Z.to_nat ((Z.of_nat p + Z.of_nat k) mod Z.of_nat (length l)).
Proof.
  intros Hp Hk.
  destruct (decide (p + k < length l)%nat) as [Hlt|Hge].
  - rewrite lookup_app_l by (rewrite length_drop; lia).
    rewrite lookup_drop, Z.mod_small by lia. f_equal. lia.
  - rewrite lookup_app_r by (rewrite length_drop; lia).
    rewrite length_drop, lookup_take_lt by lia.
    replace ((Z.of_nat p + Z.of_nat k) mod Z.of_nat (length l))
      with (Z.of_nat p + Z.of_nat k - Z.of_nat (length l)).
    + f_equal. lia.
    + apply Z.mod_unique with (q := 1); lia.
Qed.

(** The messages of one sweep: the list rotated to start at [p]. *)
Lemma round_robin_sweep_messages {A} (l : list A) (p : Z) (ys : list (Z * A)) :
  0 <= p < Z.of_nat (length l) ->
  round_robin l p = Some ys ->
  map snd ys = drop (Z.to_nat p) l ++ take (Z.to_nat p) l.
Proof.
  intros Hp Hr.
  destruct (round_robin_sweep l p Hp) as (ys' & Hr' & Hlen & Hi).
  rewrite Hr in Hr'. injection Hr' as <-.
  assert (Hpairs : Forall (fun y => py_getitem l (fst y) = Some (snd y)) ys).
  { destruct l as [|a l]; [simpl in Hp; lia|].
    unfold round_robin in Hr. eapply round_robin_loop_pairs. exact Hr. }
  assert (Hfst : forall k, (k < length l)%nat ->
            map fst ys !! k = Some ((p + Z.of_nat k) mod Z.of_nat (length l))).
  { intros k Hk. rewrite Hi, list_lookup_fmap, lookup_seq_lt by lia.
    simpl. reflexivity. }
  apply list_eq. intros k.
  destruct (decide (k < length l)%nat) as [Hk|Hk].
  - replace p with (Z.of_nat (Z.to_nat p)) in Hfst by lia.
    rewrite rotation_lookup by lia.
    specialize (Hfst k Hk). rewrite list_lookup_fmap in Hfst.
    rewrite list_lookup_fmap.
    destruct (ys !! k) as [[i m]|] eqn:Ey; [|discriminate].
    simpl in *. injection Hfst as Hfst.
    rewrite List.Forall_forall in Hpairs.
    assert (Hin : In (i, m) ys)
      by (apply list_elem_of_In; eapply list_elem_of_lookup_2; exact Ey).
    specialize (Hpairs _ Hin). simpl in Hpairs.
    unfold py_getitem in Hpairs.
    assert (Hi0 : 0 <= i) by (subst i; apply Z.mod_pos_bound; lia).
    destruct (0 <=? i) eqn:E0; [|lia].
    rewrite <- Hfst. symmetry. exact Hpairs.
  - rewrite !lookup_ge_None_2; [reflexivity| |].
    + rewrite length_app, length_drop, length_take. lia.
    + rewrite length_map. lia.
Qed.

(** X1.  One invocation of [round_robin] from a position [p] inside the
    list yields every message once: the indices are [p], [p+1], ...
    modulo the length, the messages are the list rotated to start at [p],
    and the cursor the caller is left with is the position just before
    [p], the index of the last message yielded. *)
Theorem round_robin_one_sweep {A} (l : list A) (p : Z) :
  0 <= p < Z.of_nat (length l) ->
  exists ys,
    round_robin l p = Some ys /\
    map fst ys =
      map (fun k => (p + Z.of_nat k) mod Z.of_nat (length l)) (seq 0 (length l)) /\
    map snd ys = drop (Z.to_nat p) l ++ take (Z.to_nat p) l /\
    cursor_after p ys = (p + Z.of_nat (length l) - 1) mod Z.of_nat (length l).
Proof.
  intros Hp.
  destruct (round_robin_sweep l p Hp) as (ys & Hr & Hlen & Hi).
  exists ys. split; [exact Hr|]. split; [exact Hi|].
  split; [now apply round_robin_sweep_messages|].
  unfold cursor_after. rewrite Hi.
  destruct (length l) as [|n] eqn:En; [simpl in Hp; lia|].
  rewrite seq_S, map_app. simpl (map _ [_]). rewrite last_last.
  f_equal. lia.
Qed.

Lemma round_robin_one_sweep_witness :
  exists ys,
    round_robin [10; 20; 30; 40] 2 = Some ys /\
    map snd ys = [30; 40; 10; 20] /\
    cursor_after 2 ys = 1.
Proof.
  destruct (round_robin_one_sweep [10; 20; 30; 40] 2) as (ys & Hr & _ & Hs & Hc);
    [simpl; lia|].
  exists ys. split; [exact Hr|]. split; [exact Hs|exact Hc].
Defined.

Lemma py_getitem_none {A} (l : list A) (i : Z) :
  py_getitem l i = None <->
  i < - Z.of_nat (length l) \/ Z.of_nat (length l) <= i.
Proof.
  unfold py_getitem.
  destruct (0 <=? i) eqn:E0.
  - rewrite lookup_ge_None. lia.
  - destruct (- Z.of_nat (length l) <=? i) eqn:E1.
    + rewrite lookup_ge_None. lia.
    + split; [lia|reflexivity].
Qed.

(** X2.  On a non-empty list [round_robin] raises IndexError exactly when
    the starting index is outside [-L, L); a negative index inside that
    range is accepted (it counts from the end, as Python indexing does)
    and is the first index yielded. *)
Theorem round_robin_index_error {A} (l : list A) (index : Z) :
  l <> [] ->
  (round_robin l index = None <->
     index < - Z.of_nat (length l) \/ Z.of_nat (length l) <= index) /\
  (- Z.of_nat (length l) <= index < 0 ->
     exists m ys, py_getitem l index = Some m /\
                  l !! Z.to_nat (Z.of_nat (length l) + index) = Some m /\
                  round_robin l index = Some ((index, m) :: ys)).
Proof.
  intros Hne. destruct l as [|a l']; [congruence|].
  set (l := a :: l') in *.
  assert (Hstep : forall m, py_getitem l index = Some m ->
            exists ys, round_robin l index = Some ((index, m) :: ys)).
  { intros m Hm. unfold round_robin, l. fold l.
    change (length l) with (S (length l')). simpl round_robin_loop. rewrite Hm.
    destruct (round_robin_loop_indices l (length l')
                ((index + 1) mod Z.of_nat (length l))) as (ys & Hys & _).
    { apply Z.mod_pos_bound. unfold l. simpl. lia. }
    replace (Z.of_nat (S (length l'))) with (Z.of_nat (length l)) by reflexivity.
    rewrite Hys. simpl. eauto. }
  split.
  - rewrite <- py_getitem_none. split.
    + intros Hr. destruct (py_getitem l index) as [m|] eqn:Em; [|reflexivity].
      destruct (Hstep m eq_refl) as [ys Hys]. congruence.
    + intros Hg. unfold round_robin, l. fold l.
      change (length l) with (S (length l')). simpl round_robin_loop.
      rewrite Hg. reflexivity.
  - intros Hneg.
    destruct (py_getitem l index) as [m|] eqn:Em.
    + destruct (Hstep m eq_refl) as [ys Hys]. exists m, ys.
      split; [reflexivity|]. split; [|exact Hys].
      unfold py_getitem in Em.
      destruct (0 <=? index) eqn:E0; [lia|].
      destruct (- Z.of_nat (length l) <=? index) eqn:E1; [exact Em|lia].
    + apply py_getitem_none in Em. lia.
Qed.

Lemma round_robin_index_error_witness :
  round_robin [10; 20; 30] 3 = None /\
  round_robin [10; 20; 30] (-4) = None /\
  exists m ys, round_robin [10; 20; 30] (-1) = Some ((-1, m) :: ys).
Proof.
  destruct (round_robin_index_error [10; 20; 30] 3) as [H3 _]; [discriminate|].
  destruct (round_robin_index_error [10; 20; 30] (-4)) as [H4 _]; [discriminate|].
  destruct (round_robin_index_error [10; 20; 30] (-1)) as [_ Hn]; [discriminate|].
  split; [apply H3; simpl; lia|]. split; [apply H4; simpl; lia|].
  destruct Hn as (m & ys & _ & _ & Hr); [simpl; lia|]. eauto.
Defined.

(** ** Sending one message to the targets *)

Lemma attempted_app (t1 t2 : list event) :
  attempted (t1 ++ t2) = attempted t1 ++ attempted t2.
Proof.
  induction t1 as [|ev t1 IH]; simpl; [reflexivity|].
  destruct ev; simpl; rewrite ?IH; reflexivity.
Qed.

Lemma slept_app (t1 t2 : list event) :
  slept (t1 ++ t2) = slept t1 + slept t2.
Proof.
  induction t1 as [|ev t1 IH]; simpl; [reflexivity|].
  destruct ev; simpl; rewrite ?IH; lia.
Qed.

(** A trace that makes no attempt towards [dest] delivers nothing to it. *)
Lemma not_attempted_nothing (dest : string) (tr : list event) :
  ~ In dest (attempted tr) ->
  delivered_to dest tr = [] /\ attempts_to dest tr = 0%nat.
Proof.
  induction tr as [|ev tr IH]; simpl; [auto|].
  destruct ev; simpl; auto; intros Hn;
    (rewrite bool_decide_eq_false_2 by (intros ->; apply Hn; now left));
    apply IH; intros H; apply Hn; now right.
Qed.

(** X3.  [forward_text] never raises.  For a message that carries its
    Telethon object it makes exactly one send attempt per listed target,
    in list order, whatever the backend answers, and the time it sleeps is
    the sum over the targets of the pacing delay (send accepted), the
    flood-wait cooldown (rate limited) or nothing (other failure).  For a
    message without that object it does nothing at all. *)
Theorem forward_text_one_attempt_each
    (send : string -> RawMessage -> send_result) (targets : list string)
    (msg : TextMessage) (delay : Z) :
  snd (forward_text send targets msg delay) = inr tt /\
  (raw msg = None -> trace_of (forward_text send targets msg delay) = []) /\
  (forall r, raw msg = Some r ->
     attempted (trace_of (forward_text send targets msg delay)) = targets /\
     slept (trace_of (forward_text send targets msg delay)) =
       total (map (target_pause send r delay) targets) /\
     length (trace_of (forward_text send targets msg delay)) =
       (2 * length targets)%nat).
Proof.
  split; [apply forward_text_returns|]. split.
  - intros Hr. unfold forward_text. rewrite Hr. reflexivity.
  - intros r Hr. rewrite (forward_text_trace _ _ _ r) by assumption.
    unfold trace_of. simpl.
    induction targets as [|tg targets (IH1 & IH2 & IH3)]; simpl; [auto|].
    rewrite attempted_app, slept_app, length_app, IH1, IH2, IH3.
    unfold target_trace, target_pause.
    destruct (send tg r); simpl; repeat split; lia.
Qed.

Lemma forward_text_one_attempt_each_witness :
  attempted (trace_of (forward_text flooded ["@a"; "@b"; "@c"]
                         (to_text (text_msg 7)) 1)) = ["@a"; "@b"; "@c"] /\
  slept (trace_of (forward_text flooded ["@a"; "@b"; "@c"]
                     (to_text (text_msg 7)) 1)) = 32.
Proof.
  destruct (forward_text_one_attempt_each flooded ["@a"; "@b"; "@c"]
              (to_text (text_msg 7)) 1) as (_ & _ & H).
  destruct (H (text_msg 7)) as (Ha & Hs & _); [reflexivity|].
  split; [exact Ha|]. rewrite Hs. vm_compute. reflexivity.
Defined.

(** ** The delivery loop of the cron-driven forwarder *)

Import Legacy.

(** The [for msg in messages_to_forward] loop towards one destination:
    what it delivers, how many sends it tries, and whether it got through. *)
Lemma one_by_one_loop (w : World) (sg : string) (msgs : list RawMessage) :
  delivered_to sg (fst (for_each msgs (fun msg =>
      bind (forward_messages (w_send w sg [msg]) sg [id msg])
           (fun _ => sleep 1)))) =
    map id (accepted_prefix (w_send w sg) msgs) /\
  attempts_to sg (fst (for_each msgs (fun msg =>
      bind (forward_messages (w_send w sg [msg]) sg [id msg])
           (fun _ => sleep 1)))) =
    Nat.min (length msgs) (S (length (accepted_prefix (w_send w sg) msgs))) /\
  attempted (fst (for_each msgs (fun msg =>
      bind (forward_messages (w_send w sg [msg]) sg [id msg])
           (fun _ => sleep 1)))) =
    repeat sg (Nat.min (length msgs) (S (length (accepted_prefix (w_send w sg) msgs)))).
Proof.
  induction msgs as [|m msgs (IH1 & IH2 & IH3)]; simpl; [auto|].
  destruct (w_send w sg [m]) eqn:Es; simpl.
  - destruct (for_each msgs _) as [tr res]. simpl in *.
    rewrite bool_decide_eq_true_2 by reflexivity.
    rewrite IH1, IH2, IH3. simpl. auto.
  - rewrite bool_decide_eq_true_2 by reflexivity.
    destruct msgs; simpl; auto.
  - rewrite bool_decide_eq_true_2 by reflexivity.
    destruct msgs; simpl; auto.
Qed.

(** Whatever is tried inside the [try] for [sg] is tried towards [sg]. *)
Lemma body_attempts_own (w : World) (order : value) (msgs : list RawMessage)
    (sg dest : string) :
  In dest (attempted (fst (try_except (deliver_body w order msgs sg)
                             (fun _ => emit (EvLogError (VStr sg)))))) ->
  dest = sg.
Proof.
  assert (Hwrap : forall (m : M unit),
            attempted (fst (try_except m (fun _ => emit (EvLogError (VStr sg)))))
            = attempted (fst m)).
  { intros [tr [e|[]]]; simpl; [|reflexivity].
    rewrite attempted_app. simpl. apply app_nil_r. }
  rewrite Hwrap. unfold deliver_body, get_entity.
  destruct (w_entity w (VStr sg)); simpl; [|tauto].
  case_bool_decide.
  - destruct (w_send w sg msgs); simpl; intuition congruence.
  - destruct (for_each msgs _) as [tr res] eqn:E. simpl.
    pose proof (one_by_one_loop w sg msgs) as (_ & _ & H3).
    rewrite E in H3. simpl in H3. rewrite H3.
    intros Hin. apply repeat_spec in Hin. exact Hin.
Qed.

(** For a destination listed once, only its own turn matters. *)
Lemma deliver_focus (w : World) (order : value) (msgs : list RawMessage)
    (sgs : list string) (sg : string) :
  NoDup sgs -> In sg sgs ->
  delivered_to sg (trace_of (deliver w order msgs sgs)) =
    delivered_to sg (fst (try_except (deliver_body w order msgs sg)
                            (fun _ => emit (EvLogError (VStr sg))))) /\
  attempts_to sg (trace_of (deliver w order msgs sgs)) =
    attempts_to sg (fst (try_except (deliver_body w order msgs sg)
                           (fun _ => emit (EvLogError (VStr sg))))).
Proof.
  intros Hnd Hin. rewrite deliver_returns. unfold trace_of. simpl.
  assert (Hother : forall x, x <> sg ->
    delivered_to sg (fst (try_except (deliver_body w order msgs x)
                            (fun _ => emit (EvLogError (VStr x))))) = [] /\
    attempts_to sg (fst (try_except (deliver_body w order msgs x)
                           (fun _ => emit (EvLogError (VStr x))))) = 0%nat).
  { intros x Hx. apply not_attempted_nothing. intros H.
    apply body_attempts_own in H. congruence. }
  assert (Hnone : forall l, ~ In sg l ->
    delivered_to sg (concat (map (fun x =>
      fst (try_except (deliver_body w order msgs x)
             (fun _ => emit (EvLogError (VStr x))))) l)) = [] /\
    attempts_to sg (concat (map (fun x =>
      fst (try_except (deliver_body w order msgs x)
             (fun _ => emit (EvLogError (VStr x))))) l)) = 0%nat).
  { induction l as [|x l IH]; intros Hx; simpl; [auto|].
    rewrite delivered_to_app, attempts_to_app.
    destruct (Hother x) as [-> ->]; [intros ->; apply Hx; now left|].
    destruct IH as [-> ->]; [intros H; apply Hx; now right|]. auto. }
  induction sgs as [|x sgs IH]; [destruct Hin|].
  apply NoDup_cons in Hnd as [Hnotin Hnd]. simpl.
  rewrite delivered_to_app, attempts_to_app. destruct Hin as [->|Hin].
  - destruct (Hnone sgs) as [-> ->]; [now rewrite <- list_elem_of_In|].
    rewrite app_nil_r, Nat.add_0_r. auto.
  - destruct (Hother x) as [-> ->].
    { intros ->. apply Hnotin. now apply list_elem_of_In. }
    simpl. apply IH; assumption.
Qed.

(** X4.  Order "one_by_one" (any order other than "batch"): a destination
    listed once whose entity resolves is sent the messages one at a time,
    in order, until the first send the backend rejects; the messages after
    that one are not tried for this destination in this cycle.  A
    destination whose entity cannot be found is not sent anything. *)
Theorem one_by_one_stops_at_first_failure (w : World) (order : value)
    (msgs : list RawMessage) (sgs : list string) (sg : string) :
  order <> VStr "batch" -> NoDup sgs -> In sg sgs ->
  (w_entity w (VStr sg) = true ->
     delivered_to sg (trace_of (deliver w order msgs sgs)) =
       map id (accepted_prefix (w_send w sg) msgs) /\
     attempts_to sg (trace_of (deliver w order msgs sgs)) =
       Nat.min (length msgs) (S (length (accepted_prefix (w_send w sg) msgs)))) /\
  (w_entity w (VStr sg) = false ->
     delivered_to sg (trace_of (deliver w order msgs sgs)) = [] /\
     attempts_to sg (trace_of (deliver w order msgs sgs)) = 0%nat).
Proof.
  intros Hord Hnd Hin.
  destruct (deliver_focus w order msgs sgs sg Hnd Hin) as [-> ->].
  pose proof (one_by_one_loop w sg msgs) as (H1 & H2 & _).
  unfold deliver_body, get_entity. split; intros He; rewrite He.
  - rewrite bool_decide_eq_false_2 by assumption.
    destruct (for_each msgs _) as [tr [e|[]]]; simpl in *.
    + rewrite delivered_to_app, attempts_to_app, H1, H2. simpl.
      rewrite app_nil_r, Nat.add_0_r. auto.
    + auto.
  - simpl. auto.
Qed.

Lemma one_by_one_stops_at_first_failure_witness :
  delivered_to "@g"
    (trace_of (deliver
       (mk_world 0 0 (fun _ => true) []
          (fun _ ms => if bool_decide (map id ms = [2]) then SendFailed else SendOk))
       (VStr "one_by_one") (rev (descending 4)) ["@g"; "@h"])) = [1] /\
  attempts_to "@g"
    (trace_of (deliver
       (mk_world 0 0 (fun _ => true) []
          (fun _ ms => if bool_decide (map id ms = [2]) then SendFailed else SendOk))
       (VStr "one_by_one") (rev (descending 4)) ["@g"; "@h"])) = 2%nat.
Proof.
  destruct (one_by_one_stops_at_first_failure
              (mk_world 0 0 (fun _ => true) []
                 (fun _ ms => if bool_decide (map id ms = [2]) then SendFailed else SendOk))
              (VStr "one_by_one") (rev (descending 4)) ["@g"; "@h"] "@g")
    as [Hok _].
  - discriminate.
  - repeat constructor; rewrite ?list_elem_of_In; simpl; intuition discriminate.
  - simpl. tauto.
  - exact (Hok eq_refl).
Defined.

(** X5.  Order "batch": a destination listed once whose entity resolves
    gets exactly one send call, carrying the whole message set; it
    receives all of it when the backend accepts the call and none of it
    otherwise. *)
Theorem batch_is_one_send (w : World) (msgs : list RawMessage)
    (sgs : list string) (sg : string) :
  NoDup sgs -> In sg sgs -> w_entity w (VStr sg) = true ->
  attempts_to sg (trace_of (deliver w (VStr "batch") msgs sgs)) = 1%nat /\
  delivered_to sg (trace_of (deliver w (VStr "batch") msgs sgs)) =
    match w_send w sg msgs with
    | SendOk => map id msgs
    | SendFloodWait _ | SendFailed => []
    end.
Proof.
  intros Hnd Hin He.
  destruct (deliver_focus w (VStr "batch") msgs sgs sg Hnd Hin) as [-> ->].
  unfold deliver_body, get_entity. rewrite He.
  rewrite bool_decide_eq_true_2 by reflexivity.
  destruct (w_send w sg msgs); simpl;
    rewrite bool_decide_eq_true_2 by reflexivity; simpl;
    rewrite ?app_nil_r; auto.
Qed.

Lemma batch_is_one_send_witness :
  attempts_to "@h"
    (trace_of (deliver (sample_world []) (VStr "batch") (descending 3)
                 ["@g"; "@h"])) = 1%nat /\
  delivered_to "@h"
    (trace_of (deliver (sample_world []) (VStr "batch") (descending 3)
                 ["@g"; "@h"])) = [3; 2; 1].
Proof.
  apply (batch_is_one_send (sample_world []) (descending 3) ["@g"; "@h"] "@h").
  - repeat constructor; rewrite ?list_elem_of_In; simpl; intuition discriminate.
  - simpl. tauto.
  - reflexivity.
Defined.

(** ** What a cycle does to the store *)

Lemma cycle_store_only_on_completion (cm : ConfigManager) (w : World) :
  cr_outcome (forward_messages_async cm w) <> Completed ->
  cr_store (forward_messages_async cm w) = cm.
Proof.
  unfold forward_messages_async.
  destruct (window_open _ _) as [[|]|]; simpl; auto.
  destruct (negb _); simpl; auto.
  destruct (resolve_window cm w _) as [o|[tr1 msgs]]; simpl; auto.
  destruct msgs as [|m0 rest]; simpl; auto.
  destruct (py_iter _); simpl; auto.
  rewrite deliver_returns. simpl.
  destruct (bool_decide _); simpl; auto. congruence.
Qed.

(** X6.  A cycle writes nothing to the configuration but the key
    "last_forwarded_id": every other key keeps its value, file and memory
    stay in agreement, and the store is left exactly as it was whenever
    the mode is not "new" or the cycle does not run to completion. *)
Theorem cycle_touches_only_watermark (cm : ConfigManager) (w : World) :
  (forall key, key <> "last_forwarded_id"%string ->
     config (cr_store (forward_messages_async cm w)) !! key = config cm !! key) /\
  (saved cm = config cm ->
     saved (cr_store (forward_messages_async cm w)) =
     config (cr_store (forward_messages_async cm w))) /\
  (cfg_get (config cm) "forward_mode" (VStr "new") <> VStr "new" ->
     cr_store (forward_messages_async cm w) = cm) /\
  (cr_outcome (forward_messages_async cm w) <> Completed ->
     cr_store (forward_messages_async cm w) = cm).
Proof.
  destruct (cycle_store cm w) as [E|(last & m & Hlast & Hlt & Hmode & Hm & E)];
    rewrite E.
  - repeat split; auto.
  - split; [|split; [|split]].
    + intros key Hkey. unfold set_last_forwarded_id, update_config, save_config.
      simpl. apply lookup_insert_ne. congruence.
    + intros _. apply get_after_set.
    + intros Hn. congruence.
    + intros Hn. rewrite <- E. now apply cycle_store_only_on_completion.
Qed.

Lemma cycle_touches_only_watermark_witness :
  config (cr_store (forward_messages_async (sample_store 0 ["@g1"])
                      (sample_world (descending 3)))) !! "supergroups"
    = Some (VList ["@g1"]) /\
  cr_store (forward_messages_async (sample_store 0 ["@g1"])
              (lost_world (descending 3))) = sample_store 0 ["@g1"].
Proof.
  destruct (cycle_touches_only_watermark (sample_store 0 ["@g1"])
              (sample_world (descending 3))) as (Hkeys & _).
  destruct (cycle_touches_only_watermark (sample_store 0 ["@g1"])
              (lost_world (descending 3))) as (_ & _ & _ & Hout).
  split.
  - rewrite Hkeys by discriminate. vm_compute. reflexivity.
  - apply Hout. vm_compute. discriminate.
Defined.

(** ** A second cycle on an unchanged source *)

Lemma window_open_after_set (cm : ConfigManager) (m : Z) (d : datetime) :
  window_open (config (set_last_forwarded_id cm m)) d = window_open (config cm) d.
Proof.
  unfold window_open. rewrite !cfg_get_after_set by discriminate. reflexivity.
Qed.

Lemma cycle_incremental_empty (cm : ConfigManager) (w : World) (last : Z) :
  window_open (config cm) (now utc (w_clock w)) = Some true ->
  w_entity w (cfg_get (config cm) "source_channel" (VStr "@somechannel")) = true ->
  cfg_get (config cm) "forward_mode" (VStr "new") = VStr "new" ->
  get_last_forwarded_id cm = Some last ->
  fetch_new w last = [] ->
  forward_messages_async cm w =
  mk_cycle NothingToForward cm
    ([EvGetEntity (cfg_get (config cm) "source_channel" (VStr "@somechannel")) true]
       ++ [EvGetMessages 0 last]) [].
Proof.
  intros Hwin Hsrc Hmode Hlast Hnil.
  unfold forward_messages_async. rewrite Hwin, Hsrc. simpl.
  rewrite Hmode. unfold resolve_window.
  rewrite bool_decide_eq_false_2 by discriminate. rewrite Hlast, Hnil.
  reflexivity.
Qed.

Lemma filter_none {A} (f : A -> bool) (l : list A) :
  (forall x, In x l -> f x = false) -> List.filter f l = [].
Proof.
  induction l as [|x l IH]; intros H; simpl; [reflexivity|].
  rewrite (H x) by now left. apply IH. intros y Hy. apply H. now right.
Qed.

(** On a newest-first feed nothing lies above the largest id fetched. *)
Lemma nothing_above_max (w : World) (last m : Z) :
  StronglySorted (fun x y => id y < id x) (w_feed w) ->
  max_id (fetch_new w last) = Some m ->
  fetch_new w m = [].
Proof.
  intros Hsorted Hm.
  assert (Hperm : Permutation (fetch_new w last) (take 100 (above (w_feed w) last))).
  { unfold fetch_new. rewrite get_messages_above. apply sort_by_perm. }
  pose proof (newest_first_filter (fun x => last <? id x) _ Hsorted) as Hs.
  fold (above (w_feed w) last) in Hs.
  unfold fetch_new at 1. rewrite get_messages_above.
  replace (above (w_feed w) m) with (@nil RawMessage); [reflexivity|].
  symmetry. apply filter_none. intros x Hx.
  apply Z.ltb_ge.
  destruct (Z.ltb_spec last (id x)) as [Hlt|Hle].
  - assert (Hxa : In x (above (w_feed w) last)).
    { apply filter_In. split; [exact Hx|]. now apply Z.ltb_lt. }
    destruct (above (w_feed w) last) as [|h rest] eqn:Ea; [destruct Hxa|].
    assert (Hh : id h <= m).
    { apply (max_id_ge _ _ Hm). apply (Permutation_in _ (Permutation_sym Hperm)).
      simpl. now left. }
    apply StronglySorted_inv in Hs as [_ Hall].
    rewrite List.Forall_forall in Hall.
    destruct Hxa as [<-|Hxr]; [exact Hh|]. specialize (Hall x Hxr). lia.
  - destruct (max_id_in _ _ Hm) as (y & Hy & <-).
    apply fetch_new_above in Hy. lia.
Qed.

(** X8.  After a cycle in "new" mode has run to completion on a
    newest-first source, a second cycle on the same source and clock finds
    nothing above the watermark: it resolves nothing, makes no send
    attempt and leaves the store as the first cycle left it.  In a steady
    state no message is forwarded twice. *)
Theorem second_cycle_forwards_nothing (cm : ConfigManager) (w : World)
    (last : Z) (sgs : list string) :
  window_open (config cm) (now utc (w_clock w)) = Some true ->
  w_entity w (cfg_get (config cm) "source_channel" (VStr "@somechannel")) = true ->
  cfg_get (config cm) "forward_mode" (VStr "new") = VStr "new" ->
  get_last_forwarded_id cm = Some last ->
  py_iter (cfg_get (config cm) "supergroups" (VList [])) = Some sgs ->
  StronglySorted (fun x y => id y < id x) (w_feed w) ->
  fetch_new w last <> [] ->
  cr_outcome (forward_messages_async (cr_store (forward_messages_async cm w)) w)
    = NothingToForward /\
  cr_resolved (forward_messages_async (cr_store (forward_messages_async cm w)) w)
    = [] /\
  attempted (cr_trace
     (forward_messages_async (cr_store (forward_messages_async cm w)) w)) = [] /\
  cr_store (forward_messages_async (cr_store (forward_messages_async cm w)) w)
    = cr_store (forward_messages_async cm w).
Proof.
  intros Hwin Hsrc Hmode Hlast Hsgs Hsorted Hne.
  destruct (cycle_incremental cm w last sgs Hwin Hsrc Hmode Hlast Hsgs Hne)
    as (m & Hm & ->). simpl cr_store.
  rewrite (cycle_incremental_empty (set_last_forwarded_id cm m) w m).
  - simpl. auto.
  - now rewrite window_open_after_set.
  - now rewrite cfg_get_after_set by discriminate.
  - now rewrite cfg_get_after_set by discriminate.
  - apply get_after_set.
  - now apply (nothing_above_max w last m).
Qed.

Lemma second_cycle_forwards_nothing_witness :
  cr_outcome (forward_messages_async
     (cr_store (forward_messages_async (sample_store 0 ["@g1"])
                  (sample_world (descending 3))))
     (sample_world (descending 3))) = NothingToForward.
Proof.
  apply (second_cycle_forwards_nothing (sample_store 0 ["@g1"])
           (sample_world (descending 3)) 0 ["@g1"]);
    try (vm_compute; reflexivity).
  - apply (bool_decide_eq_true_1 _
             (Decision0 := @StronglySorted_dec _ _
                     (fun x y : RawMessage => decide (id y < id x)) _)).
    vm_compute. reflexivity.
  - vm_compute. discriminate.
Defined.

(** ** The continuous loop, pass by pass *)

(** The [k]-th pass of [run_forever] is the loop body run on the [k]-th
    environment from the state the passes before it led to. *)
Lemma run_forever_pass (s : Settings) (envs : list Env) :
  forall (st : State) (k : nat) (e : Env) (p : pass),
  envs !! k = Some e -> run_forever s envs st !! k = Some p ->
  p = iteration s e (state_at s envs st k).
Proof.
  induction envs as [|e0 envs IH]; intros st k e p He Hp; [discriminate|].
  destruct k as [|k]; simpl in *.
  - congruence.
  - destruct (p_control (iteration s e0 st)); try discriminate.
    eapply IH; eassumption.
Qed.

(** Nothing follows a pass that did not go back to the top of the loop. *)
Lemma run_forever_ends (s : Settings) (envs : list Env) :
  forall (st : State) (k : nat) (p : pass),
  run_forever s envs st !! k = Some p -> p_control p <> Continue ->
  run_forever s envs st !! S k = None.
Proof.
  induction envs as [|e0 envs IH]; intros st k p Hp Hc; [reflexivity|].
  destruct k as [|k]; simpl in *.
  - injection Hp as <-.
    destruct (p_control (iteration s e0 st)); [congruence|reflexivity..].
  - destruct (p_control (iteration s e0 st)); try discriminate.
    eapply IH; eassumption.
Qed.



(** X10.  A pass inside the window that finds no target ends
    [run_forever] for good: the pass sends nothing, and no later pass is
    made, whatever the later environments hold.  The day's messages have
    been fetched by then. *)
Theorem no_targets_ends_the_loop (s : Settings) (envs : list Env)
    (st : State) (k : nat) (e : Env) (p : pass) :
  envs !! k = Some e -> run_forever s envs st !! k = Some p ->
  _in_allowed_window s (e_clock_window e) = true ->
  _load_targets s e = [] ->
  p_control p = Stopped /\ p_trace p = [] /\
  fetch_today_texts (e_feed e) (timezone s) (e_clock_fetch e)
    = Some (st_messages (p_state p)) /\
  run_forever s envs st !! S k = None /\
  length (run_forever s envs st) = S k.
Proof.
  intros He Hp Hwin Hnone.
  assert (Hit : p = iteration s e (state_at s envs st k))
    by (eapply run_forever_pass; eassumption).
  destruct (fetch_today_texts_total (e_feed e) (timezone s) (e_clock_fetch e))
    as [msgs Hf].
  assert (Hshape : p = mk_pass Stopped {| st_messages := msgs; st_idx := 0 |} []).
  { rewrite Hit. unfold iteration, _refresh_messages.
    rewrite Hwin, Hf, Hnone. reflexivity. }
  assert (Hend : run_forever s envs st !! S k = None).
  { eapply run_forever_ends; [exact Hp|]. rewrite Hshape. discriminate. }
  rewrite Hshape. simpl. repeat split; auto.
  apply lookup_ge_None in Hend. apply lookup_lt_Some in Hp. lia.
Qed.

Lemma no_targets_ends_the_loop_witness :
  length (run_forever (mk_settings "all" ["@g1"] utc 0 24 60)
            [pass_one; pass_two; pass_two] initial) = 1%nat.
Proof.
  destruct (no_targets_ends_the_loop (mk_settings "all" ["@g1"] utc 0 24 60)
              [pass_one; pass_two; pass_two] initial 0 pass_one
              (iteration (mk_settings "all" ["@g1"] utc 0 24 60) pass_one initial))
    as (_ & _ & _ & _ & Hlen); [vm_compute; reflexivity ..|].
  exact Hlen.
Defined.

Lemma delivered_to_concat {X} (dest : string) (f : X -> list event)
    (ys : list X) :
  delivered_to dest (concat (map f ys)) =
  concat (map (fun y => delivered_to dest (f y)) ys).
Proof.
  induction ys as [|y ys IH]; simpl; [reflexivity|].
  now rewrite delivered_to_app, IH.
Qed.

Lemma scan_chunk_to_text (day_start : datetime) (chunk : list RawMessage) :
  Forall (fun tm => exists m, tm = to_text m)
         (Gateway.scan_chunk day_start chunk).
Proof.
  induction chunk as [|m rest IH]; simpl; [constructor|].
  destruct (before_day_start day_start m); [constructor|].
  apply Forall_app. split; [|exact IH].
  destruct (is_plain_text m); repeat constructor. eauto.
Qed.

Lemma fetch_loop_to_text (feed : list RawMessage) (day_start : datetime) :
  forall fuel offset msgs res,
  Forall (fun tm => exists m, tm = to_text m) msgs ->
  fetch_loop fuel feed day_start offset msgs = Some res ->
  Forall (fun tm => exists m, tm = to_text m) res.
Proof.
  induction fuel as [|fuel IH]; intros offset msgs res Hmsgs; simpl;
    [discriminate|].
  destruct (List.last _ None) as [oldest|]; [|now intros [= <-]].
  assert (Hacc : Forall (fun tm => exists m, tm = to_text m)
                   (msgs ++ Gateway.scan_chunk day_start
                              (get_messages feed 100 offset 0))).
  { apply Forall_app. split; [exact Hmsgs|apply scan_chunk_to_text]. }
  destruct (before_day_start day_start oldest); [now intros [= <-]|].
  now apply IH.
Qed.

Lemma fetch_today_texts_to_text (feed : list RawMessage) (tz : zone)
    (clock : Z) (msgs : list TextMessage) :
  fetch_today_texts feed tz clock = Some msgs ->
  Forall (fun tm => exists m, tm = to_text m) msgs.
Proof.
  unfold fetch_today_texts.
  destruct (fetch_loop _ _ _ _ _) as [res|] eqn:E; [|discriminate].
  intros [= <-]. apply Forall_rev.
  eapply fetch_loop_to_text; [|exact E]. constructor.
Qed.

(** The shape of a pass that sweeps. *)
Lemma iteration_sweeps (s : Settings) (e : Env) (st : State)
    (msgs : list TextMessage) (ys : list (Z * TextMessage)) :
  _in_allowed_window s (e_clock_window e) = true ->
  fetch_today_texts (e_feed e) (timezone s) (e_clock_fetch e) = Some msgs ->
  _load_targets s e <> [] -> msgs <> [] ->
  round_robin msgs 0 = Some ys ->
  iteration s e st =
  mk_pass Continue {| st_messages := msgs; st_idx := cursor_after 0 ys |}
    (trace_of (for_each ys (sweep_body s e (_load_targets s e)))).
Proof.
  intros Hwin Hf Ht Hm Hr.
  unfold iteration, _refresh_messages. rewrite Hwin, Hf. simpl.
  destruct (_load_targets s e) as [|t ts]; [congruence|].
  destruct msgs as [|m0 rest]; [congruence|].
  rewrite Hr. reflexivity.
Qed.

(** X9.  A pass inside the window forwards the day's messages it has just
    fetched, each once and oldest first: a target that is listed once and
    accepts every send receives exactly the ids of the fetched set, in
    its order. *)
Theorem pass_forwards_every_message_once (s : Settings) (e : Env)
    (st : State) (tg : string) :
  _in_allowed_window s (e_clock_window e) = true ->
  NoDup (_load_targets s e) -> In tg (_load_targets s e) ->
  (forall r, e_send e tg r = SendOk) ->
  exists msgs,
    fetch_today_texts (e_feed e) (timezone s) (e_clock_fetch e) = Some msgs /\
    delivered_to tg (p_trace (iteration s e st)) = map message_id msgs /\
    p_control (iteration s e st) = Continue.
Proof.
  intros Hwin Hnd Hin Hok.
  destruct (fetch_today_texts_total (e_feed e) (timezone s) (e_clock_fetch e))
    as [msgs Hf].
  exists msgs. split; [exact Hf|].
  pose proof (fetch_today_texts_to_text _ _ _ _ Hf) as Htext.
  assert (Ht : _load_targets s e <> []) by (intros E; rewrite E in Hin; destruct Hin).
  destruct msgs as [|m0 rest] eqn:Em.
  { unfold iteration, _refresh_messages. rewrite Hwin, Hf. simpl.
    destruct (_load_targets s e); [congruence|]. simpl. auto. }
  rewrite <- Em in *.
  assert (Hne : msgs <> []) by (rewrite Em; discriminate).
  destruct (sweep_from_zero msgs Hne) as (ys & Hr & Hi).
  assert (Hsnd : map snd ys = msgs).
  { rewrite (round_robin_sweep_messages msgs 0 ys);
      [|destruct msgs; simpl; [congruence|lia]|exact Hr].
    simpl. apply app_nil_r. }
  rewrite (iteration_sweeps s e st msgs ys Hwin Hf Ht Hne Hr).
  simpl. split; [|reflexivity].
  set (targets := _load_targets s e) in *.
  rewrite sweep_returns. unfold trace_of. simpl.
  rewrite delivered_to_concat, <- Hsnd, map_map.
  assert (Heach : forall y, In y ys ->
            delivered_to tg (fst (sweep_body s e targets y)) = [message_id (snd y)]).
  { intros y Hy.
    assert (Hym : In (snd y) msgs) by (rewrite <- Hsnd; now apply in_map).
    rewrite List.Forall_forall in Htext. destruct (Htext _ Hym) as [m Hm].
    unfold sweep_body.
    destruct (forward_text (e_send e) targets (snd y) 1) as [tr res] eqn:Ef.
    pose proof (forward_text_returns (e_send e) targets (snd y) 1) as Hres.
    rewrite Ef in Hres. simpl in Hres. subst res. simpl.
    rewrite delivered_to_app. simpl. rewrite app_nil_r.
    pose proof (forward_text_reaches (e_send e) targets (snd y) m 1 tg) as Hreach.
    rewrite Ef in Hreach. unfold trace_of in Hreach. simpl in Hreach.
    rewrite Hreach; auto; rewrite Hm; reflexivity. }
  clear - Heach. induction ys as [|y ys IH]; simpl; [reflexivity|].
  rewrite Heach by now left. simpl. f_equal.
  apply IH. intros z Hz. apply Heach. now right.
Qed.

Lemma pass_forwards_every_message_once_witness :
  delivered_to "@g1" (p_trace (iteration sample_settings pass_two initial))
  = [1; 2].
Proof.
  destruct (pass_forwards_every_message_once sample_settings pass_two initial "@g1")
    as (msgs & Hf & Hd & _).
  - vm_compute. reflexivity.
  - repeat constructor; rewrite ?list_elem_of_In; simpl; intuition discriminate.
  - simpl. tauto.
  - intros r. reflexivity.
  - rewrite Hd. vm_compute in Hf. injection Hf as <-. reflexivity.
Defined.

(** ** Paging through a newest-first feed *)

Lemma last_some_snoc {A} (l : list A) (x : A) :
  List.last (map Some l) None = Some x -> exists l', l = l' ++ [x].
Proof.
  induction l as [|a l IH]; simpl; [discriminate|].
  destruct l as [|b l]; simpl in *.
  - intros [= ->]. exists []. reflexivity.
  - intros H. destruct (IH H) as [l' Hl']. exists (a :: l'). now rewrite Hl'.
Qed.

Lemma filter_all {A} (f : A -> bool) (l : list A) :
  (forall x, In x l -> f x = true) -> List.filter f l = l.
Proof.
  induction l as [|x l IH]; intros H; simpl; [reflexivity|].
  rewrite (H x) by now left. f_equal. apply IH. intros y Hy. apply H. now right.
Qed.

Lemma reachable_zero (feed : list RawMessage) :
  Forall (fun m => 0 < id m) feed -> reachable feed 0 = feed.
Proof.
  intros Hpos. apply filter_all. intros x Hx.
  rewrite List.Forall_forall in Hpos. specialize (Hpos x Hx). simpl.
  apply Z.ltb_lt. exact Hpos.
Qed.

(** In a newest-first feed with positive ids, the page request below the
    id of a message reaches exactly what follows that message. *)
Lemma reachable_after (feed pre post : list RawMessage) (x : RawMessage) :
  StronglySorted (fun a b => id b < id a) feed ->
  Forall (fun m => 0 < id m) feed ->
  feed = pre ++ x :: post ->
  reachable feed (id x) = post.
Proof.
  intros Hs Hpos ->. unfold reachable.
  rewrite List.Forall_forall in Hpos.
  assert (Hx : 0 < id x) by (apply Hpos, in_elt).
  apply StronglySorted_app in Hs as (Hcross & _ & Hs2).
  apply StronglySorted_inv in Hs2 as [_ Hafter].
  rewrite List.Forall_forall in Hafter.
  rewrite List.filter_app. simpl.
  rewrite filter_none, filter_all.
  - replace (id x <? id x) with false by (symmetry; apply Z.ltb_irrefl).
    replace (id x =? 0) with false by (symmetry; apply Z.eqb_neq; lia).
    reflexivity.
  - intros y Hy. apply andb_true_iff. split.
    + apply orb_true_iff. right. apply Z.ltb_lt. now apply Hafter.
    + apply Z.ltb_lt. apply Hpos. apply in_or_app. right. now right.
  - intros y Hy. apply andb_false_iff. left. apply orb_false_iff. split.
    + apply Z.eqb_neq. lia.
    + apply Z.ltb_ge.
      assert (id x < id y); [|lia].
      apply (Hcross y x); [now apply list_elem_of_In|constructor].
Qed.

Lemma scan_app_break (ds : datetime) (a b : list RawMessage) (x : RawMessage) :
  In x a -> before_day_start ds x = true ->
  Gateway.scan_chunk ds (a ++ b) = Gateway.scan_chunk ds a.
Proof.
  induction a as [|m a IH]; intros Hin Hb; [destruct Hin|]. simpl.
  destruct (before_day_start ds m) eqn:Em; [reflexivity|].
  f_equal. destruct Hin as [->|Hin]; [congruence|]. now apply IH.
Qed.

Lemma scan_app_all (ds : datetime) (a b : list RawMessage) :
  (forall x, In x a -> before_day_start ds x = false) ->
  Gateway.scan_chunk ds (a ++ b) =
  Gateway.scan_chunk ds a ++ Gateway.scan_chunk ds b.
Proof.
  induction a as [|m a IH]; intros H; [reflexivity|]. simpl.
  rewrite (H m) by now left. rewrite IH, app_assoc; [reflexivity|].
  intros y Hy. apply H. now right.
Qed.

Lemma before_day_start_mono (ds : datetime) (x y : RawMessage) :
  date y <= date x -> before_day_start ds y = false ->
  before_day_start ds x = false.
Proof.
  unfold before_day_start, naive_lt. simpl. rewrite !Z.ltb_ge. lia.
Qed.

(** On a newest-first feed whose dates do not grow down the list, the
    paging loop is one scan of what the first request reaches. *)
Lemma fetch_loop_scans (feed : list RawMessage) (ds : datetime) :
  StronglySorted (fun a b => id b < id a) feed ->
  Forall (fun m => 0 < id m) feed ->
  forall fuel pre s offset msgs,
    feed = pre ++ s -> reachable feed offset = s ->
    StronglySorted (fun a b => date b <= date a) s ->
    (length s < fuel)%nat ->
    fetch_loop fuel feed ds offset msgs =
    Some (msgs ++ Gateway.scan_chunk ds s).
Proof.
  intros Hs Hpos.
  induction fuel as [|fuel IH]; intros pre s offset msgs Hfeed Hreach Hdates Hlen;
    [lia|].
  simpl.
  change (get_messages feed 100 offset 0) with (take 100 (reachable feed offset)).
  rewrite Hreach.
  destruct (List.last (map Some (take 100 s)) None) as [oldest|] eqn:El.
  - apply last_some_snoc in El as [c Hc].
    pose proof (take_drop 100 s) as Hsplit. rewrite Hc in Hsplit.
    set (rest := drop 100 s) in *.
    assert (Hrest : (length rest < length s)%nat).
    { rewrite <- Hsplit, !length_app. simpl. lia. }
    assert (Hreach' : reachable feed (id oldest) = rest).
    { apply (reachable_after feed (pre ++ c) rest oldest Hs Hpos).
      rewrite Hfeed, <- Hsplit, <- !app_assoc. reflexivity. }
    rewrite Hc. rewrite <- Hsplit in Hdates |- *.
    destruct (before_day_start ds oldest) eqn:Eb.
    + rewrite (scan_app_break ds (c ++ [oldest]) rest oldest); auto.
      apply in_or_app. right. now left.
    + rewrite (scan_app_all ds (c ++ [oldest]) rest), app_assoc.
      * apply (IH (pre ++ c ++ [oldest]) rest); auto.
        -- rewrite Hfeed, <- Hsplit, <- !app_assoc. reflexivity.
        -- now apply StronglySorted_app_1_r in Hdates.
        -- lia.
      * intros x Hx. apply in_app_or in Hx as [Hx|[<-|[]]]; [|exact Eb].
        apply (before_day_start_mono ds x oldest); [|exact Eb].
        apply StronglySorted_app_1_l in Hdates.
        apply (StronglySorted_app_1_elem_of _ _ _ x oldest Hdates);
          [now apply list_elem_of_In|constructor].
  - apply last_none_nil in El.
    destruct s as [|m s]; [now rewrite app_nil_r|discriminate].
Qed.

Lemma scan_chunk_filter (ds : datetime) (l : list RawMessage) :
  StronglySorted (fun a b => date b <= date a) l ->
  Gateway.scan_chunk ds l =
  map to_text (List.filter
    (fun m => negb (before_day_start ds m) && is_plain_text m) l).
Proof.
  induction 1 as [|m l Hs IH Hall]; simpl; [reflexivity|].
  destruct (before_day_start ds m) eqn:Eb; simpl.
  - rewrite filter_none; [reflexivity|].
    intros y Hy. rewrite List.Forall_forall in Hall. specialize (Hall y Hy).
    destruct (before_day_start ds y) eqn:Ey; [reflexivity|].
    rewrite (before_day_start_mono ds m y Hall Ey) in Eb. discriminate.
  - rewrite IH. destruct (is_plain_text m); reflexivity.
Qed.

(** X11.  On a feed listed newest first, with positive ids and dates that
    do not grow down the list, paging changes nothing: [fetch_today_texts]
    returns, oldest first, exactly the messages of the feed that have text
    and no media and are not before the day start by the code's date test,
    however many pages of 100 that takes. *)
Theorem fetch_today_texts_is_one_scan (feed : list RawMessage) (tz : zone)
    (clock : Z) :
  StronglySorted (fun a b => id b < id a) feed ->
  Forall (fun m => 0 < id m) feed ->
  StronglySorted (fun a b => date b <= date a) feed ->
  fetch_today_texts feed tz clock =
  Some (rev (map to_text (List.filter
    (fun m => negb (before_day_start (start_of_today tz clock) m)
              && is_plain_text m) feed))).
Proof.
  intros Hs Hpos Hdates. unfold fetch_today_texts.
  rewrite (fetch_loop_scans feed _ Hs Hpos (S (length feed)) [] feed 0 []);
    auto using reachable_zero.
  simpl. now rewrite scan_chunk_filter.
Qed.

Lemma fetch_today_texts_is_one_scan_witness :
  option_map (map message_id)
    (fetch_today_texts (descending 250) utc (sample_midnight + 43200))
  = Some (map Z.of_nat (seq 1 250)).
Proof.
  rewrite (fetch_today_texts_is_one_scan (descending 250) utc
             (sample_midnight + 43200)).
  - vm_compute. reflexivity.
  - apply (bool_decide_eq_true_1 _
             (Decision0 := @StronglySorted_dec _ _
                     (fun x y : RawMessage => decide (id y < id x)) _)).
    vm_compute. reflexivity.
  - apply (bool_decide_eq_true_1 _
             (Decision0 := @Forall_dec _ _
                     (fun x : RawMessage => decide (0 < id x)) _)).
    vm_compute. reflexivity.
  - apply (bool_decide_eq_true_1 _
             (Decision0 := @StronglySorted_dec _ _
                     (fun x y : RawMessage => decide (date y <= date x)) _)).
    vm_compute. reflexivity.
Defined.

Lemma legacy_scan_app_break (start : datetime) (a b : list RawMessage)
    (x : RawMessage) :
  In x a -> aware_lt (msg_date_utc x) start = true ->
  Legacy.scan_chunk start (a ++ b) = Legacy.scan_chunk start a.
Proof.
  induction a as [|m a IH]; intros Hin Hb; [destruct Hin|]. simpl.
  destruct (aware_lt (msg_date_utc m) start) eqn:Em; [reflexivity|].
  simpl. f_equal. destruct Hin as [->|Hin]; [congruence|]. now apply IH.
Qed.

Lemma legacy_scan_app_all (start : datetime) (a b : list RawMessage) :
  (forall x, In x a -> aware_lt (msg_date_utc x) start = false) ->
  Legacy.scan_chunk start (a ++ b) =
  Legacy.scan_chunk start a ++ Legacy.scan_chunk start b.
Proof.
  induction a as [|m a IH]; intros H; [reflexivity|]. simpl.
  rewrite (H m) by now left. simpl. f_equal. apply IH.
  intros y Hy. apply H. now right.
Qed.

Lemma aware_lt_mono (start : datetime) (x y : RawMessage) :
  date y <= date x -> aware_lt (msg_date_utc y) start = false ->
  aware_lt (msg_date_utc x) start = false.
Proof.
  unfold aware_lt, msg_date_utc, timestamp. simpl. rewrite !Z.ltb_ge. lia.
Qed.

Lemma fetch_all_loop_scans (feed : list RawMessage) (start : datetime) :
  StronglySorted (fun a b => id b < id a) feed ->
  Forall (fun m => 0 < id m) feed ->
  forall fuel pre s offset tr msgs,
    feed = pre ++ s -> reachable feed offset = s ->
    StronglySorted (fun a b => date b <= date a) s ->
    (length s < fuel)%nat ->
    exists tr',
      fetch_all_loop fuel feed start offset tr msgs =
      Some (tr', msgs ++ Legacy.scan_chunk start s).
Proof.
  intros Hs Hpos.
  induction fuel as [|fuel IH];
    intros pre s offset tr msgs Hfeed Hreach Hdates Hlen; [lia|].
  simpl.
  change (get_messages feed 100 offset 0) with (take 100 (reachable feed offset)).
  rewrite Hreach.
  destruct (List.last (map Some (take 100 s)) None) as [oldest|] eqn:El.
  - apply last_some_snoc in El as [c Hc].
    pose proof (take_drop 100 s) as Hsplit. rewrite Hc in Hsplit.
    set (rest := drop 100 s) in *.
    assert (Hrest : (length rest < length s)%nat).
    { rewrite <- Hsplit, !length_app. simpl. lia. }
    assert (Hreach' : reachable feed (id oldest) = rest).
    { apply (reachable_after feed (pre ++ c) rest oldest Hs Hpos).
      rewrite Hfeed, <- Hsplit, <- !app_assoc. reflexivity. }
    rewrite Hc. rewrite <- Hsplit in Hdates |- *.
    destruct (aware_lt (msg_date_utc oldest) start) eqn:Eb.
    + rewrite (legacy_scan_app_break start (c ++ [oldest]) rest oldest); eauto.
      apply in_or_app. right. now left.
    + rewrite (legacy_scan_app_all start (c ++ [oldest]) rest), app_assoc.
      * apply (IH (pre ++ c ++ [oldest]) rest); auto.
        -- rewrite Hfeed, <- Hsplit, <- !app_assoc. reflexivity.
        -- now apply StronglySorted_app_1_r in Hdates.
        -- lia.
      * intros x Hx. apply in_app_or in Hx as [Hx|[<-|[]]]; [|exact Eb].
        apply (aware_lt_mono start x oldest); [|exact Eb].
        apply StronglySorted_app_1_l in Hdates.
        apply (StronglySorted_app_1_elem_of _ _ _ x oldest Hdates);
          [now apply list_elem_of_In|constructor].
  - apply last_none_nil in El.
    destruct s as [|m s]; [rewrite app_nil_r; eauto|discriminate].
Qed.

Lemma legacy_scan_filter (clock : Z) (l : list RawMessage) :
  StronglySorted (fun a b => date b <= date a) l ->
  Legacy.scan_chunk (replace_midnight (now utc clock)) l =
  List.filter (fun m => clock / 86400 * 86400 <=? date m) l.
Proof.
  assert (Htest : forall m,
            negb (aware_lt (msg_date_utc m) (replace_midnight (now utc clock)))
            = (clock / 86400 * 86400 <=? date m)).
  { intros m. unfold aware_lt, msg_date_utc, timestamp, utc. simpl.
    rewrite Z.add_0_r, !Z.sub_0_r. symmetry. apply Z.leb_antisym. }
  induction 1 as [|m l Hs IH Hall]; simpl; [reflexivity|].
  rewrite Htest. destruct (clock / 86400 * 86400 <=? date m) eqn:Eb.
  - now rewrite IH.
  - symmetry. apply filter_none. intros y Hy.
    rewrite List.Forall_forall in Hall. specialize (Hall y Hy).
    apply Z.leb_gt in Eb. apply Z.leb_gt. lia.
Qed.

(** X12.  On a feed listed newest first, with positive ids and dates that
    do not grow down the list, [fetch_all_today_messages] returns, oldest
    first, every message of the feed dated at or after 00:00 UTC of the
    current day, text or not, however many pages of 100 that takes. *)
Theorem fetch_all_today_is_one_scan (feed : list RawMessage) (clock : Z) :
  StronglySorted (fun a b => id b < id a) feed ->
  Forall (fun m => 0 < id m) feed ->
  StronglySorted (fun a b => date b <= date a) feed ->
  option_map snd (fetch_all_today_messages feed clock) =
  Some (rev (List.filter (fun m => clock / 86400 * 86400 <=? date m) feed)).
Proof.
  intros Hs Hpos Hdates. unfold fetch_all_today_messages.
  destruct (fetch_all_loop_scans feed (replace_midnight (now utc clock)) Hs Hpos
              (S (length feed)) [] feed 0 [] [])
    as [tr ->]; auto using reachable_zero.
  simpl. now rewrite legacy_scan_filter.
Qed.

Lemma fetch_all_today_is_one_scan_witness :
  option_map snd (fetch_all_today_messages photo_on_top (sample_midnight + 43200))
  = Some (rev (List.filter
       (fun m => (sample_midnight + 43200) / 86400 * 86400 <=? date m)
       photo_on_top)).
Proof.
  apply (fetch_all_today_is_one_scan photo_on_top (sample_midnight + 43200)).
  - apply (bool_decide_eq_true_1 _
             (Decision0 := @StronglySorted_dec _ _
                 (fun x y : RawMessage => decide (id y < id x)) _)).
    vm_compute. reflexivity.
  - apply (bool_decide_eq_true_1 _
             (Decision0 := @Forall_dec _ _
                 (fun x : RawMessage => decide (0 < id x)) _)).
    vm_compute. reflexivity.
  - apply (bool_decide_eq_true_1 _
             (Decision0 := @StronglySorted_dec _ _
                 (fun x y : RawMessage => decide (date y <= date x)) _)).
    vm_compute. reflexivity.
Defined.

(** ** What a full-day fetch can return, on any feed *)

Lemma scan_chunk_sound (ds : datetime) (chunk : list RawMessage) :
  Forall (fun tm => exists m, In m chunk /\ tm = to_text m /\
                              is_plain_text m = true /\
                              before_day_start ds m = false)
         (Gateway.scan_chunk ds chunk).
Proof.
  induction chunk as [|m rest IH]; simpl; [constructor|].
  destruct (before_day_start ds m) eqn:Eb; [constructor|].
  apply Forall_app. split.
  - destruct (is_plain_text m) eqn:E; repeat constructor.
    exists m. simpl. auto.
  - eapply Forall_impl; [exact IH|]. simpl.
    intros tm (x & Hx & Hr). exists x. auto.
Qed.

Lemma fetch_loop_sound (feed : list RawMessage) (ds : datetime) :
  forall fuel offset msgs res,
  Forall (fun tm => exists m, In m feed /\ tm = to_text m /\
                              is_plain_text m = true /\
                              before_day_start ds m = false /\ 0 < id m) msgs ->
  fetch_loop fuel feed ds offset msgs = Some res ->
  Forall (fun tm => exists m, In m feed /\ tm = to_text m /\
                              is_plain_text m = true /\
                              before_day_start ds m = false /\ 0 < id m) res.
Proof.
  induction fuel as [|fuel IH]; intros offset msgs res Hmsgs; simpl;
    [discriminate|].
  destruct (List.last _ None) as [oldest|]; [|now intros [= <-]].
  assert (Hacc : Forall (fun tm => exists m, In m feed /\ tm = to_text m /\
                              is_plain_text m = true /\
                              before_day_start ds m = false /\ 0 < id m)
                   (msgs ++ Gateway.scan_chunk ds
                              (get_messages feed 100 offset 0))).
  { apply Forall_app. split; [exact Hmsgs|].
    eapply Forall_impl; [apply scan_chunk_sound|]. simpl.
    intros tm (x & Hx & Hr & Hp & Hb). exists x.
    apply get_messages_in in Hx. tauto. }
  destruct (before_day_start ds oldest); [now intros [= <-]|].
  now apply IH.
Qed.

(** X13.  Whatever the feed looks like (any order, repeated or
    non-positive ids), [fetch_today_texts] comes back, and everything it
    returns wraps a message of the feed that has a positive id, has text
    and no media, and is not before the day start by the code's date
    test. *)
Theorem fetch_today_texts_sound (feed : list RawMessage) (tz : zone)
    (clock : Z) :
  exists msgs,
    fetch_today_texts feed tz clock = Some msgs /\
    Forall (fun tm => exists m,
              In m feed /\ tm = to_text m /\ is_plain_text m = true /\
              before_day_start (start_of_today tz clock) m = false /\
              0 < id m) msgs.
Proof.
  destruct (fetch_today_texts_total feed tz clock) as [msgs Hf].
  exists msgs. split; [exact Hf|].
  unfold fetch_today_texts in Hf.
  destruct (fetch_loop _ _ _ _ _) as [res|] eqn:E; [|discriminate].
  injection Hf as <-. apply Forall_rev.
  eapply fetch_loop_sound; [|exact E]. constructor.
Qed.

(** ** Listen mode *)

Import Listen.






(** ** The configuration store and the admin commands *)

Import Admin.

Lemma cfg_get_update_eq (cm : ConfigManager) (key : string) (v d : value) :
  cfg_get (config (update_config cm key v)) key d = v.
Proof.
  unfold update_config, save_config, cfg_get. simpl.
  now rewrite lookup_insert_eq.
Qed.

Lemma cfg_get_update_ne (cm : ConfigManager) (key key' : string) (v d : value) :
  key <> key' ->
  cfg_get (config (update_config cm key v)) key' d = cfg_get (config cm) key' d.
Proof.
  intros Hne. unfold update_config, save_config, cfg_get. simpl.
  now rewrite lookup_insert_ne.
Qed.

Lemma update_config_synced (cm : ConfigManager) (key : string) (v : value) :
  saved (update_config cm key v) = config (update_config cm key v).
Proof. reflexivity. Qed.

Ltac cfg_simpl :=
  repeat first
    [ rewrite cfg_get_update_eq
    | rewrite cfg_get_update_ne by discriminate ].

(** X16.  [/settimeinterval] never stores an ill-formed window: whatever
    its arguments, a store whose hours satisfy [0 <= start < end <= 24]
    keeps such hours; a command that is refused (usage, non-numeric or
    out-of-range hours) leaves the store exactly as it was. *)
Theorem settimeinterval_keeps_window (cm : ConfigManager)
    (args : list string) :
  window_well_formed (config cm) ->
  window_well_formed (config (fst (settimeinterval cm args))) /\
  (snd (settimeinterval cm args) <> Updated ->
     fst (settimeinterval cm args) = cm).
Proof.
  intros (st & ed & Hst & Hed & Hrange).
  unfold settimeinterval.
  destruct args as [|a0 rest]; cbn [fst snd].
  { split; [exists st, ed; auto|reflexivity]. }
  destruct (String.eqb (py_lower a0) "always").
  { cbn [fst snd]. split; [|congruence].
    exists st, ed. cfg_simpl. auto. }
  destruct rest as [|a1 [|a2 rest]]; cbn [fst snd];
    try (split; [exists st, ed; auto|reflexivity]).
  destruct (int_of_str a0) as [st'|]; cbn [fst snd];
    try (split; [exists st, ed; auto|reflexivity]).
  destruct (int_of_str a1) as [ed'|]; cbn [fst snd];
    try (split; [exists st, ed; auto|reflexivity]).
  destruct ((0 <=? st') && (st' <? ed') && (ed' <=? 24)) eqn:Eok; cbn [fst snd];
    try (split; [exists st, ed; auto|reflexivity]).
  split; [|congruence].
  apply andb_true_iff in Eok as [Eok E3]. apply andb_true_iff in Eok as [E1 E2].
  exists st', ed'. cfg_simpl. repeat split; lia.
Qed.

Lemma settimeinterval_keeps_window_witness :
  window_well_formed
    (config (fst (settimeinterval (sample_store 0 []) ["25"; "3"]))) /\
  fst (settimeinterval (sample_store 0 []) ["25"; "3"]) = sample_store 0 [].
Proof.
  destruct (settimeinterval_keeps_window (sample_store 0 []) ["25"; "3"])
    as [Hw Hsame].
  - exists 8, 22. vm_compute. repeat split; congruence.
  - split; [exact Hw|]. apply Hsame. vm_compute. discriminate.
Defined.

(** X17.  After [/settimeinterval a b] with numeric [0 <= a < b <= 24],
    the cron-driven cycle passes its time-window test exactly in the UTC
    hours from [a] to [b - 1]; after [/settimeinterval always] it passes
    at every hour. *)
Theorem settimeinterval_then_window (cm : ConfigManager) (a0 a1 : string)
    (rest : list string) (st ed : Z) (d : datetime) :
  (String.eqb (py_lower a0) "always" = true ->
     window_open (config (fst (settimeinterval cm (a0 :: rest)))) d = Some true) /\
  (String.eqb (py_lower a0) "always" = false ->
   int_of_str a0 = Some st -> int_of_str a1 = Some ed ->
   0 <= st -> st < ed -> ed <= 24 ->
     snd (settimeinterval cm [a0; a1]) = Updated /\
     window_open (config (fst (settimeinterval cm [a0; a1]))) d =
       Some ((st <=? hour d) && (hour d <? ed))).
Proof.
  unfold settimeinterval. split.
  - intros ->. cbn [fst snd]. unfold window_open. cfg_simpl. reflexivity.
  - intros -> -> -> H0 H1 H2.
    replace ((0 <=? st) && (st <? ed) && (ed <=? 24)) with true
      by (symmetry; rewrite !andb_true_iff; repeat split; lia).
    cbn [fst snd]. split; [reflexivity|].
    unfold window_open. cfg_simpl. simpl.
    destruct (st <=? hour d); reflexivity.
Qed.

Lemma settimeinterval_then_window_witness :
  window_open (config (fst (settimeinterval (sample_store 0 []) ["9"; "17"])))
    (now utc (sample_midnight + 17 * 3600)) = Some false /\
  window_open (config (fst (settimeinterval (sample_store 0 []) ["ALWAYS"])))
    (now utc (sample_midnight + 3 * 3600)) = Some true.
Proof.
  destruct (settimeinterval_then_window (sample_store 0 []) "9" "17" [] 9 17
              (now utc (sample_midnight + 17 * 3600))) as [_ Hset].
  destruct (settimeinterval_then_window (sample_store 0 []) "ALWAYS" "" [] 0 0
              (now utc (sample_midnight + 3 * 3600))) as [Halways _].
  split.
  - destruct Hset as [_ Hw]; [first [vm_compute; reflexivity | lia] ..|].
    rewrite Hw. vm_compute. reflexivity.
  - apply Halways. vm_compute. reflexivity.
Defined.

(** X18.  [/setmode] and [/setorder] store only the words the forwarder
    knows, lower-cased: "today" or "new", "batch" or "one_by_one".  Any
    other word is refused and the store is left as it was. *)
Theorem setmode_setorder_store_known_words (cm : ConfigManager)
    (a : string) (rest : list string) :
  (snd (setmode cm (a :: rest)) = Updated <->
     py_lower a = "today"%string \/ py_lower a = "new"%string) /\
  (snd (setmode cm (a :: rest)) = Updated ->
     cfg_get (config (fst (setmode cm (a :: rest)))) "forward_mode" (VStr "new")
       = VStr (py_lower a)) /\
  (snd (setmode cm (a :: rest)) <> Updated -> fst (setmode cm (a :: rest)) = cm) /\
  (snd (setorder cm (a :: rest)) = Updated <->
     py_lower a = "batch"%string \/ py_lower a = "one_by_one"%string) /\
  (snd (setorder cm (a :: rest)) = Updated ->
     cfg_get (config (fst (setorder cm (a :: rest)))) "forward_order"
       (VStr "one_by_one") = VStr (py_lower a)) /\
  (snd (setorder cm (a :: rest)) <> Updated -> fst (setorder cm (a :: rest)) = cm).
Proof.
  unfold setmode, setorder.
  destruct (String.eqb_spec (py_lower a) "today") as [E1|E1];
    destruct (String.eqb_spec (py_lower a) "new") as [E2|E2];
    destruct (String.eqb_spec (py_lower a) "batch") as [E3|E3];
    destruct (String.eqb_spec (py_lower a) "one_by_one") as [E4|E4];
    cbn [fst snd orb]; cfg_simpl; repeat split; try tauto; try congruence;
    intros; try congruence; try tauto; try discriminate.
Qed.

Lemma setmode_setorder_store_known_words_witness :
  cfg_get (config (fst (setmode (sample_store 0 []) ["TODAY"])))
    "forward_mode" (VStr "new") = VStr "today" /\
  fst (setorder (sample_store 0 []) ["random"]) = sample_store 0 [].
Proof.
  destruct (setmode_setorder_store_known_words (sample_store 0 []) "TODAY" [])
    as (_ & Hmode & _).
  destruct (setmode_setorder_store_known_words (sample_store 0 []) "random" [])
    as (_ & _ & _ & _ & _ & Horder).
  split.
  - rewrite Hmode; vm_compute; reflexivity.
  - apply Horder. vm_compute. discriminate.
Defined.

(** ** Invariants of the store over cycles and commands *)


Lemma update_keeps_watermark (cm : ConfigManager) (k : string) (v : value) :
  k <> "last_forwarded_id"%string -> keeps_watermark cm (update_config cm k v).
Proof.
  intros Hk. right. split; [reflexivity|].
  unfold update_config, save_config. simpl. now apply lookup_insert_ne.
Qed.

Lemma setchannel_store cm args : keeps_watermark cm (fst (setchannel cm args)).
Proof.
  unfold setchannel. destruct args; cbn [fst snd]; [now left|].
  apply update_keeps_watermark. discriminate.
Qed.

Lemma setgroups_store cm args : keeps_watermark cm (fst (setgroups cm args)).
Proof.
  unfold setgroups. destruct args; cbn [fst snd]; [now left|].
  apply update_keeps_watermark. discriminate.
Qed.

Lemma setcron_store cm args : keeps_watermark cm (fst (setcron cm args)).
Proof.
  unfold setcron. destruct args; cbn [fst snd]; [now left|].
  apply update_keeps_watermark. discriminate.
Qed.

Lemma setmode_store cm args : keeps_watermark cm (fst (setmode cm args)).
Proof.
  unfold setmode. destruct args; cbn [fst snd]; [now left|].
  destruct (_ || _); cbn [fst snd]; [|now left].
  apply update_keeps_watermark. discriminate.
Qed.

Lemma setorder_store cm args : keeps_watermark cm (fst (setorder cm args)).
Proof.
  unfold setorder. destruct args; cbn [fst snd]; [now left|].
  destruct (_ || _); cbn [fst snd]; [|now left].
  apply update_keeps_watermark. discriminate.
Qed.

Lemma settimeinterval_store cm args :
  keeps_watermark cm (fst (settimeinterval cm args)).
Proof.
  unfold settimeinterval. destruct args as [|a0 rest]; cbn [fst snd]; [now left|].
  destruct (String.eqb _ _); cbn [fst snd].
  { apply update_keeps_watermark. discriminate. }
  destruct rest as [|a1 [|a2 rest]]; cbn [fst snd]; try now left.
  destruct (int_of_str a0); cbn [fst snd]; try now left.
  destruct (int_of_str a1); cbn [fst snd]; try now left.
  destruct (_ && _); cbn [fst snd]; try now left.
  right. split; [reflexivity|].
  unfold update_config, save_config. simpl.
  rewrite !lookup_insert_ne by discriminate. reflexivity.
Qed.

Lemma command_store (name : string) (cm : ConfigManager) (args : list string) :
  keeps_watermark cm (fst (command name cm args)).
Proof.
  unfold command.
  destruct (String.eqb name "setchannel"); [apply setchannel_store|].
  destruct (String.eqb name "setgroups"); [apply setgroups_store|].
  destruct (String.eqb name "setmode"); [apply setmode_store|].
  destruct (String.eqb name "setorder"); [apply setorder_store|].
  destruct (String.eqb name "settimeinterval"); [apply settimeinterval_store|].
  destruct (String.eqb name "setcron"); [apply setcron_store|].
  now left.
Qed.

Ltac wf_update Hwf :=
  let Hsync := fresh in let st := fresh "st" in let ed := fresh "ed" in
  destruct Hwf as (Hsync & (st & ed & ? & ? & ?) & ? & ? & ? & ? & ?);
  unfold well_formed, window_well_formed; cfg_simpl;
  (split; [reflexivity|]); eauto 12.

Lemma setchannel_well_formed cm args :
  well_formed cm -> well_formed (fst (setchannel cm args)).
Proof.
  intros Hwf. unfold setchannel. destruct args; cbn [fst snd]; [exact Hwf|].
  wf_update Hwf.
Qed.

Lemma setgroups_well_formed cm args :
  well_formed cm -> well_formed (fst (setgroups cm args)).
Proof.
  intros Hwf. unfold setgroups. destruct args; cbn [fst snd]; [exact Hwf|].
  wf_update Hwf.
Qed.

Lemma setcron_well_formed cm args :
  well_formed cm -> well_formed (fst (setcron cm args)).
Proof.
  intros Hwf. unfold setcron. destruct args; cbn [fst snd]; [exact Hwf|].
  wf_update Hwf.
Qed.

Lemma setmode_well_formed cm args :
  well_formed cm -> well_formed (fst (setmode cm args)).
Proof.
  intros Hwf. unfold setmode. destruct args as [|a0 rest]; cbn [fst snd];
    [exact Hwf|].
  destruct (String.eqb_spec (py_lower a0) "today") as [E1|E1];
    [|destruct (String.eqb_spec (py_lower a0) "new") as [E2|E2]];
    cbn [fst snd orb]; try exact Hwf; rewrite ?E1, ?E2; wf_update Hwf.
Qed.

Lemma setorder_well_formed cm args :
  well_formed cm -> well_formed (fst (setorder cm args)).
Proof.
  intros Hwf. unfold setorder. destruct args as [|a0 rest]; cbn [fst snd];
    [exact Hwf|].
  destruct (String.eqb_spec (py_lower a0) "batch") as [E1|E1];
    [|destruct (String.eqb_spec (py_lower a0) "one_by_one") as [E2|E2]];
    cbn [fst snd orb]; try exact Hwf; rewrite ?E1, ?E2; wf_update Hwf.
Qed.

Lemma settimeinterval_well_formed cm args :
  well_formed cm -> well_formed (fst (settimeinterval cm args)).
Proof.
  intros Hwf. unfold settimeinterval.
  destruct args as [|a0 rest]; cbn [fst snd]; [exact Hwf|].
  destruct (String.eqb _ _); cbn [fst snd]; [wf_update Hwf|].
  destruct rest as [|a1 [|a2 rest]]; cbn [fst snd]; try exact Hwf.
  destruct (int_of_str a0) as [st'|]; cbn [fst snd]; try exact Hwf.
  destruct (int_of_str a1) as [ed'|]; cbn [fst snd]; try exact Hwf.
  destruct ((0 <=? st') && (st' <? ed') && (ed' <=? 24)) eqn:Eok;
    cbn [fst snd]; try exact Hwf.
  apply andb_true_iff in Eok as [Eok E3]. apply andb_true_iff in Eok as [E1 E2].
  destruct Hwf as (Hsync & _ & Hmode & Horder & Hlast & Hsgs & Hflag).
  unfold well_formed, window_well_formed. cfg_simpl.
  split; [reflexivity|]. split; [exists st', ed'; repeat split; lia|].
  eauto 12.
Qed.

Lemma command_well_formed (name : string) (cm : ConfigManager)
    (args : list string) :
  well_formed cm -> well_formed (fst (command name cm args)).
Proof.
  intros Hwf. unfold command.
  destruct (String.eqb name "setchannel"); [now apply setchannel_well_formed|].
  destruct (String.eqb name "setgroups"); [now apply setgroups_well_formed|].
  destruct (String.eqb name "setmode"); [now apply setmode_well_formed|].
  destruct (String.eqb name "setorder"); [now apply setorder_well_formed|].
  destruct (String.eqb name "settimeinterval");
    [now apply settimeinterval_well_formed|].
  destruct (String.eqb name "setcron"); [now apply setcron_well_formed|].
  exact Hwf.
Qed.

Lemma cycle_well_formed (cm : ConfigManager) (w : World) :
  well_formed cm -> well_formed (cr_store (forward_messages_async cm w)).
Proof.
  intros Hwf.
  destruct (cycle_store cm w) as [->|(last & m & _ & _ & _ & _ & ->)]; [exact Hwf|].
  destruct Hwf as (Hsync & (st & ed & Hst & Hed & Hrange) & Hmode & Horder
                   & Hlast & Hsgs & Hflag).
  unfold set_last_forwarded_id, well_formed, window_well_formed. cfg_simpl.
  split; [reflexivity|]. eauto 12.
Qed.

(** X19.  The store the program creates when config.json is missing is
    well formed (file and memory agree, window hours [0 <= start < end <=
    24], a known mode and order, an integer watermark, a list of
    destinations, a boolean window flag), and it stays well formed under
    any sequence of cron cycles and admin commands, whatever their
    arguments. *)
Theorem store_stays_well_formed (cm : ConfigManager) (steps : list step) :
  well_formed (init None) /\
  (well_formed cm -> well_formed (run cm steps)).
Proof.
  split.
  - unfold well_formed, window_well_formed, init.
    split; [reflexivity|]. split; [exists 8, 22; repeat split; lia|].
    repeat split; eauto.
  - unfold run. revert cm.
    induction steps as [|s steps IH]; intros cm Hwf; [exact Hwf|].
    simpl. apply IH. destruct s as [w|name args]; simpl.
    + now apply cycle_well_formed.
    + now apply command_well_formed.
Qed.

Lemma store_stays_well_formed_witness :
  well_formed
    (run (init None)
       [Command "settimeinterval" ["99"; "1"]; Cycle (sample_world (descending 3));
        Command "setmode" ["Today"]; Command "setgroups" ["@a,"; "@b"];
        Cycle (sample_world (descending 5))]).
Proof.
  destruct (store_stays_well_formed (init None)
       [Command "settimeinterval" ["99"; "1"]; Cycle (sample_world (descending 3));
        Command "setmode" ["Today"]; Command "setgroups" ["@a,"; "@b"];
        Cycle (sample_world (descending 5))]) as [Hinit Hrun].
  exact (Hrun Hinit).
Defined.

(** X20.  No admin command writes "last_forwarded_id".  Through any
    sequence of cron cycles and admin commands, from a store whose file
    and memory agree, the watermark stays readable and never decreases,
    in memory and in the file. *)
Theorem watermark_survives_commands (steps : list step) :
  forall (cm : ConfigManager) (a : Z),
  saved cm = config cm ->
  get_last_forwarded_id cm = Some a ->
  (forall name args,
     get_last_forwarded_id (fst (command name cm args)) = Some a) /\
  exists b,
    get_last_forwarded_id (run cm steps) = Some b /\
    persisted_last_id (run cm steps) = Some b /\
    a <= b.
Proof.
  assert (Hcmd : forall name cm args a,
            saved cm = config cm -> get_last_forwarded_id cm = Some a ->
            saved (fst (command name cm args)) = config (fst (command name cm args)) /\
            get_last_forwarded_id (fst (command name cm args)) = Some a).
  { intros name cm args a Hsync Ha.
    destruct (command_store name cm args) as [->|[Hs Hk]]; [auto|].
    split; [exact Hs|].
    unfold get_last_forwarded_id, cfg_get in *. now rewrite Hk. }
  induction steps as [|s steps IH]; intros cm a Hsync Ha.
  - split; [intros; now apply Hcmd|].
    exists a. unfold run, persisted_last_id. simpl. rewrite Hsync.
    repeat split; auto. lia.
  - split; [intros; now apply Hcmd|].
    unfold run. simpl. fold (run (do_step cm s) steps).
    destruct s as [w|name args]; simpl.
    + destruct (cycle_watermark_step cm w a Hsync Ha) as (b & Hb & _ & Hs & Hle).
      destruct (IH _ b Hs Hb) as (_ & c & Hc & Hp & Hbc).
      exists c. repeat split; auto. lia.
    + destruct (Hcmd name cm args a Hsync Ha) as [Hs Hb].
      destruct (IH _ a Hs Hb) as (_ & c & Hc & Hp & Hac).
      exists c. auto.
Qed.

Lemma watermark_survives_commands_witness :
  exists b,
    get_last_forwarded_id
      (run (sample_store 2 ["@g1"])
         [Command "setmode" ["new"]; Cycle (sample_world (descending 5));
          Command "setcron" ["*/5"; "*"; "*"; "*"; "*"]]) = Some b /\
    2 <= b.
Proof.
  destruct (watermark_survives_commands
              [Command "setmode" ["new"]; Cycle (sample_world (descending 5));
               Command "setcron" ["*/5"; "*"; "*"; "*"; "*"]]
              (sample_store 2 ["@g1"]) 2)
    as (_ & b & Hb & _ & Hle); [reflexivity|vm_compute; reflexivity|].
  exists b. split; [exact Hb|exact Hle].
Defined.



(** ** Parsing the destination list *)

Lemma lstrip_head (l : list ascii) (c : ascii) (r : list ascii) :
  lstrip l = c :: r -> is_space c = false.
Proof.
  induction l as [|x l IH]; simpl; [discriminate|].
  destruct (is_space x) eqn:E; [exact IH|]. intros [= <- _]. exact E.
Qed.

Lemma lstrip_in (l : list ascii) (c : ascii) :
  In c (lstrip l) -> In c l.
Proof.
  induction l as [|x l IH]; simpl; [tauto|].
  destruct (is_space x); [auto|]. simpl. tauto.
Qed.

Lemma lstrip_last (l : list ascii) :
  lstrip l <> [] -> last (lstrip l) = last l.
Proof.
  induction l as [|x l IH]; simpl; [congruence|].
  destruct (is_space x); [|reflexivity].
  intros Hne. rewrite IH by assumption.
  destruct l as [|y l]; [simpl in Hne; congruence|]. reflexivity.
Qed.

Lemma rev_cons_last {A} (l : list A) (c : A) (r : list A) :
  rev l = c :: r -> last l = Some c.
Proof.
  intros H. rewrite <- (rev_involutive l), H. simpl. apply last_snoc.
Qed.

Lemma last_rev_head {A} (l : list A) (c : A) :
  last (rev l) = Some c -> exists r, l = c :: r.
Proof.
  destruct l as [|x l]; simpl; [discriminate|].
  rewrite last_snoc. intros [= ->]. eauto.
Qed.

(** What [strip] leaves has no white space at either end and only
    characters of the original. *)
Lemma strip_chars_clean (l : list ascii) :
  (forall c, In c (strip_chars l) -> In c l) /\
  (forall c r, strip_chars l = c :: r -> is_space c = false) /\
  (forall c, last (strip_chars l) = Some c -> is_space c = false).
Proof.
  unfold strip_chars. split; [|split].
  - intros c Hc. apply in_rev in Hc. apply lstrip_in in Hc.
    apply in_rev in Hc. now apply lstrip_in in Hc.
  - intros c r H. apply rev_cons_last in H.
    destruct (lstrip (rev (lstrip l))) as [|b bs] eqn:Eb; [discriminate|].
    rewrite <- Eb in H. rewrite lstrip_last in H by (rewrite Eb; discriminate).
    apply last_rev_head in H as [r' Hr']. now apply lstrip_head in Hr'.
  - intros c H. apply last_rev_head in H as [r' Hr'].
    now apply lstrip_head in Hr'.
Qed.

Lemma split_chars_no_sep (sep : ascii) (l : list ascii) :
  Forall (fun piece => ~ In sep piece) (split_chars sep l).
Proof.
  induction l as [|c l IH]; simpl; [repeat constructor; tauto|].
  destruct (Ascii.eqb_spec c sep) as [->|Hne].
  - constructor; [tauto|exact IH].
  - destruct (split_chars sep l) as [|piece pieces].
    + repeat constructor. simpl. intuition congruence.
    + apply Forall_cons in IH as [Hp Hps]. constructor; [|exact Hps].
      simpl. intuition congruence.
Qed.

(** X22.  [/setgroups] joins its arguments with spaces, cuts at commas
    and strips each piece: the destinations it stores are never empty,
    contain no comma, all come out of the text typed, and have no white
    space at either end.  Without arguments the store is left alone. *)
Theorem setgroups_stores_clean_names (cm : ConfigManager)
    (args : list string) :
  (args = [] -> setgroups cm args = (cm, Usage)) /\
  (args <> [] ->
     cfg_get (config (fst (setgroups cm args))) "supergroups" (VList [])
       = VList (parse_groups (join_args args)) /\
     Forall (fun g =>
               g <> ""%string /\
               ~ In ","%char (list_ascii_of_string g) /\
               (forall c, In c (list_ascii_of_string g) ->
                          In c (list_ascii_of_string (join_args args))) /\
               (forall c r, list_ascii_of_string g = c :: r -> is_space c = false) /\
               (forall c, last (list_ascii_of_string g) = Some c ->
                          is_space c = false))
            (parse_groups (join_args args))).
Proof.
  split; [intros ->; reflexivity|].
  intros Hne. destruct args as [|a0 rest]; [congruence|].
  unfold setgroups. cbn [fst snd]. split; [apply cfg_get_update_eq|].
  unfold parse_groups.
  set (chars := list_ascii_of_string (join_args (a0 :: rest))).
  apply List.Forall_forall. intros g Hg.
  apply in_map_iff in Hg as (cs & <- & Hcs).
  apply filter_In in Hcs as [Hcs Hnonempty].
  apply in_map_iff in Hcs as (piece & <- & Hpiece).
  pose proof (split_chars_no_sep ","%char chars) as Hsep.
  rewrite List.Forall_forall in Hsep. specialize (Hsep piece Hpiece).
  destruct (strip_chars_clean piece) as (Hsub & Hhead & Hlast).
  rewrite list_ascii_of_string_of_list_ascii.
  split; [|split; [|split; [|split]]].
  - destruct (strip_chars piece); [discriminate|]. discriminate.
  - intros Hin. apply Hsep. now apply Hsub.
  - intros c Hc. apply Hsub in Hc.
    clear - Hc Hpiece. revert piece Hpiece Hc.
    induction chars as [|x chars IH]; simpl; intros piece Hpiece Hc.
    + destruct Hpiece as [<-|[]]. destruct Hc.
    + destruct (Ascii.eqb x ","%char).
      * destruct Hpiece as [<-|Hp]; [destruct Hc|]. right. eauto.
      * destruct (split_chars ","%char chars) as [|p ps] eqn:Es.
        -- destruct Hpiece as [<-|[]]. destruct Hc as [->|[]]. now left.
        -- destruct Hpiece as [<-|Hp].
           ++ destruct Hc as [->|Hc]; [now left|]. right.
              apply (IH p); [now left|exact Hc].
           ++ right. apply (IH piece); [now right|exact Hc].
  - exact Hhead.
  - exact Hlast.
Qed.

Lemma setgroups_stores_clean_names_witness :
  cfg_get (config (fst (setgroups (sample_store 0 []) ["@a,"; "@b"; ",,"; "@c"])))
    "supergroups" (VList []) = VList ["@a"; "@b"; "@c"].
Proof.
  destruct (setgroups_stores_clean_names (sample_store 0 [])
              ["@a,"; "@b"; ",,"; "@c"]) as [_ H].
  destruct H as [Hget _]; [discriminate|].
  rewrite Hget. vm_compute. reflexivity.
Defined.

(** ** The cron schedule, from the admin command to the scheduler *)

Import Main.

Lemma list_ascii_app (s1 s2 : string) :
  list_ascii_of_string (s1 ++ s2) =
  list_ascii_of_string s1 ++ list_ascii_of_string s2.
Proof. induction s1 as [|c s1 IH]; simpl; [reflexivity|]. now rewrite IH. Qed.

Lemma words_from_token (w rest : list ascii) :
  Forall (fun c => is_space c = false) w ->
  words_from (w ++ rest) =
  (w ++ fst (words_from rest), snd (words_from rest)).
Proof.
  induction 1 as [|c w Hc Hw IH]; simpl.
  - destruct (words_from rest); reflexivity.
  - rewrite IH, Hc. reflexivity.
Qed.

Lemma cons_word_nonempty (w : list ascii) (ws : list (list ascii)) :
  w <> [] -> cons_word w ws = w :: ws.
Proof. destruct w; [congruence|reflexivity]. Qed.

(** Splitting what [" ".join] built out of tokens gives the tokens back. *)
Lemma split_join_tokens (args : list string) :
  Forall is_token args -> py_split (join_args args) = args.
Proof.
  unfold py_split, join_args.
  assert (Hnil : forall a, is_token a -> list_ascii_of_string a <> []).
  { intros a [Ha _] H. apply Ha.
    rewrite <- (string_of_list_ascii_of_string a), H. reflexivity. }
  induction 1 as [|a args Ha Hargs IH]; [reflexivity|].
  pose proof (Hnil a Ha) as Hne. destruct Ha as [_ Hchars].
  destruct args as [|b args].
  - simpl String.concat.
    replace (list_ascii_of_string a)
      with (list_ascii_of_string a ++ []) by apply app_nil_r.
    rewrite words_from_token by assumption. simpl fst. simpl snd.
    rewrite app_nil_r, cons_word_nonempty by assumption.
    simpl. now rewrite string_of_list_ascii_of_string.
  - change (String.concat " " (a :: b :: args))
      with (a ++ String " "%char (String.concat " " (b :: args)))%string.
    rewrite list_ascii_app.
    change (list_ascii_of_string (String " "%char (String.concat " " (b :: args))))
      with (" "%char :: list_ascii_of_string (String.concat " " (b :: args))).
    rewrite words_from_token by assumption.
    change (words_from (" "%char :: list_ascii_of_string (String.concat " " (b :: args))))
      with (let (w, ws) := words_from (list_ascii_of_string (String.concat " " (b :: args)))
            in (@nil ascii, cons_word w ws)).
    destruct (words_from (list_ascii_of_string (String.concat " " (b :: args))))
      as [w ws] eqn:Ew.
    simpl fst. simpl snd. rewrite app_nil_r, cons_word_nonempty by assumption.
    rewrite map_cons, string_of_list_ascii_of_string. f_equal. exact IH.
Qed.

(** X23.  The scheduler is always given exactly five cron fields.  A
    schedule stored by [/setcron] from five arguments is read back as
    those five fields; stored from any other number of arguments it is
    silently replaced by "every minute". *)
Theorem cron_fields_round_trip (cm : ConfigManager) (args : list string) :
  (forall fields, cron_fields (config cm) = Some fields -> length fields = 5%nat) /\
  (args <> [] -> Forall is_token args ->
     cron_fields (config (fst (setcron cm args))) =
       Some (if (length args =? 5)%nat then args else ["*"; "*"; "*"; "*"; "*"])).
Proof.
  split.
  - unfold cron_fields. intros fields.
    destruct (cfg_get _ _ _) as [| |expr|]; try discriminate.
    destruct (Nat.eqb_spec (length (py_split expr)) 5); intros [= <-]; auto.
  - intros Hne Htok. destruct args as [|a rest]; [congruence|].
    unfold setcron, cron_fields. cbn [fst snd]. rewrite cfg_get_update_eq.
    now rewrite split_join_tokens.
Qed.

Lemma cron_fields_round_trip_witness :
  cron_fields (config (fst (setcron (sample_store 0 []) ["*/5"; "8-20"; "*"; "*"; "1-5"])))
    = Some ["*/5"; "8-20"; "*"; "*"; "1-5"] /\
  cron_fields (config (fst (setcron (sample_store 0 []) ["hourly"])))
    = Some ["*"; "*"; "*"; "*"; "*"].
Proof.
  destruct (cron_fields_round_trip (sample_store 0 [])
              ["*/5"; "8-20"; "*"; "*"; "1-5"]) as [_ H5].
  destruct (cron_fields_round_trip (sample_store 0 []) ["hourly"]) as [_ H1].
  split.
  - apply H5; [discriminate|].
    repeat constructor; try discriminate.
  - apply H1; [discriminate|].
    repeat constructor; try discriminate.
Defined.

(** ** The order of delivery in an incremental cycle *)

Lemma insert_by_stable {A} (key : A -> Z) (k : Z) (x : A) (l : list A) :
  List.filter (fun y => key y =? k) (insert_by key x l) =
  List.filter (fun y => key y =? k) (x :: l).
Proof.
  induction l as [|y l IH]; [reflexivity|].
  simpl insert_by. destruct (key x <=? key y) eqn:E; [reflexivity|].
  simpl List.filter at 1. rewrite IH. simpl.
  destruct (key x =? k) eqn:Ex; destruct (key y =? k) eqn:Ey; try reflexivity.
  apply Z.eqb_eq in Ex, Ey. apply Z.leb_gt in E. lia.
Qed.

Lemma sort_by_stable {A} (key : A -> Z) (k : Z) (l : list A) :
  List.filter (fun y => key y =? k) (sort_by key l) =
  List.filter (fun y => key y =? k) l.
Proof.
  induction l as [|x l IH]; [reflexivity|].
  simpl sort_by. rewrite insert_by_stable. simpl. now rewrite IH.
Qed.

(** X24.  In a cycle that runs in "new" mode, whatever else is listed,
    a destination listed once that resolves and accepts every send
    receives the whole resolved set, in ascending order of date; that set
    is the first 100 messages of the feed above the watermark. *)
Theorem cycle_delivers_in_date_order (cm : ConfigManager) (w : World)
    (last : Z) (sgs : list string) (sg : string) :
  window_open (config cm) (now utc (w_clock w)) = Some true ->
  w_entity w (cfg_get (config cm) "source_channel" (VStr "@somechannel")) = true ->
  cfg_get (config cm) "forward_mode" (VStr "new") = VStr "new" ->
  get_last_forwarded_id cm = Some last ->
  py_iter (cfg_get (config cm) "supergroups" (VList [])) = Some sgs ->
  fetch_new w last <> [] ->
  NoDup sgs -> In sg sgs ->
  w_entity w (VStr sg) = true -> (forall ms, w_send w sg ms = SendOk) ->
  delivered_to sg (cr_trace (forward_messages_async cm w)) =
    map id (cr_resolved (forward_messages_async cm w)) /\
  StronglySorted (fun a b => date a <= date b)
    (cr_resolved (forward_messages_async cm w)) /\
  Permutation (cr_resolved (forward_messages_async cm w))
    (take 100 (above (w_feed w) last)).
Proof.
  intros Hwin Hsrc Hmode Hlast Hsgs Hne Hnd Hin He Hs.
  destruct (cycle_incremental cm w last sgs Hwin Hsrc Hmode Hlast Hsgs Hne)
    as (m & Hm & ->). simpl.
  split; [|split].
  - rewrite !delivered_to_app. simpl. rewrite app_nil_r.
    now apply deliver_reaches.
  - unfold fetch_new. eapply strongly_sorted_weaken; [|apply sort_by_sorted].
    intros a b. unfold timestamp, m_date. simpl. lia.
  - unfold fetch_new. rewrite get_messages_above. apply sort_by_perm.
Qed.

Lemma cycle_delivers_in_date_order_witness :
  delivered_to "@c"
    (cr_trace (forward_messages_async (sample_store 2 ["@a"; "@b"; "@c"; "@d"])
                 (sample_world (descending 5)))) = [3; 4; 5].
Proof.
  destruct (cycle_delivers_in_date_order (sample_store 2 ["@a"; "@b"; "@c"; "@d"])
              (sample_world (descending 5)) 2 ["@a"; "@b"; "@c"; "@d"] "@c")
    as (Hd & _);
    [first [ vm_compute; reflexivity
           | vm_compute; discriminate
           | simpl; tauto
           | intros ms; reflexivity
           | repeat constructor; rewrite ?list_elem_of_In; simpl;
             intuition discriminate ] ..|].
  rewrite Hd. vm_compute. reflexivity.
Defined.

(** X25.  The sort by date is stable: among the messages an incremental
    fetch returns, those that carry the same date stay in the order the
    backend listed them, which is newest first. *)
Theorem same_date_messages_keep_feed_order (w : World) (last d : Z) :
  List.filter (fun m => date m =? d) (fetch_new w last) =
  List.filter (fun m => date m =? d) (get_messages (w_feed w) 100 0 last).
Proof.
  unfold fetch_new.
  assert (Hkey : forall l : list RawMessage,
            List.filter (fun m => date m =? d) l =
            List.filter (fun m => timestamp (m_date m) =? d) l).
  { intros l. apply filter_ext. intros m. unfold timestamp, m_date. simpl.
    now rewrite Z.sub_0_r. }
  rewrite !Hkey. apply sort_by_stable.
Qed.
